(** * unredact: removal of redaction annotations and black fill rectangles

    A shallow embedding of [unredact.py] and the properties of its two page
    passes, [_remove_redaction_annots] and [_remove_black_rectangles].

    Modelling conventions.
    - A Python float is modelled by [pyfloat]: the rational number a finite
      double denotes ([Qc], canonical rationals, so that equal floats are
      equal terms), an infinity, or NaN.  The code compares floats and never
      does arithmetic on them; the one place where a value is rounded is
      [float()] of an integer, [int_to_float].  A float literal of the
      source is the exact value of the IEEE-754 double nearest to it (see
      [float_0_02]).  The two zeros are not told apart: they compare equal
      and are both false.
    - A Python exception is modelled by [None] in [option]; a [try/except
      Exception] block is a [match] on that option.
    - [dict.get] is a lookup in a [gmap]; the Python [set] of indices is a
      [gset nat].
    - The value of ["/Annots"] is kept as [page.get] returns it, an array
      or a reference to one ([annots_value]): the first test of the
      annotation pass is on that value, not on the array it resolves to.
    - The objects are numbers, names and arrays ([pyobj]).  Text strings,
      booleans and dictionaries as values of annotation entries or as
      operands are left out, and so are arrays of annotations with an
      entry that is not a dictionary.
    - The operations of a content stream are taken as [ContentStream]
      decodes them; the decoding itself, and the encoding of the stream
      that the pass stores, are not modelled. *)

From Stdlib Require Import Ascii String QArith Qcanon.
From stdpp Require Import base option list gmap strings numbers.

Open Scope string_scope.
Open Scope list_scope.
Open Scope nat_scope.

#[local] Set Warnings "-clear-no-such-hyp".

(** ** PDF objects *)

(** The value of a Python float: a finite double, an infinity or NaN. *)
Inductive pyfloat : Type :=
  | Fin (x : Qc)
  | PInf
  | NInf
  | NaN.

(** [a <= b], [a < b] and [a == b] on floats: false when either is NaN. *)
Definition float_le (a b : pyfloat) : bool :=
  match a, b with
  | NaN, _ | _, NaN => false
  | NInf, _ => true
  | _, PInf => true
  | Fin x, Fin y => bool_decide (x ≤ y)%Qc
  | _, _ => false
  end.

Definition float_lt (a b : pyfloat) : bool :=
  match a, b with
  | NaN, _ | _, NaN => false
  | NInf, NInf => false
  | NInf, _ => true
  | PInf, _ => false
  | Fin x, Fin y => bool_decide (x < y)%Qc
  | Fin _, PInf => true
  | Fin _, NInf => false
  end.

Definition float_eq (a b : pyfloat) : bool :=
  match a, b with
  | Fin x, Fin y => bool_decide (x = y)
  | PInf, PInf => true
  | NInf, NInf => true
  | _, _ => false
  end.

(** A whole number as a float, when no rounding is involved. *)
Definition float_of_Z (z : Z) : pyfloat := Fin (Q2Qc (inject_Z z)).

(** [float(z)] for a Python integer: exact below 2^53 in absolute value,
    otherwise rounded to 53 significant bits, ties to the even one;
    [None] for the [OverflowError] raised when the rounded value does not
    fit a double. *)
Definition int_to_float (z : Z) : option pyfloat :=
  let a := Z.abs z in
  if (a <? 2 ^ 53)%Z then Some (float_of_Z z)
  else
    let e := (Z.log2 a + 1 - 53)%Z in
    let q := Z.shiftr a e in
    let r := Z.land a (Z.ones e) in
    let half := Z.shiftl 1 (e - 1) in
    let m := if (half <? r)%Z || ((r =? half)%Z && Z.odd q)
             then (q + 1)%Z else q in
    let v := Z.shiftl m e in
    if (2 ^ 1024 <=? v)%Z then None
    else Some (float_of_Z (Z.sgn z * v)).

(** The objects stored in an annotation dictionary or used as operands of a
    content-stream operator.
    - [PyInt z]: a [NumberObject], a Python integer of any size.
    - [PyFloat x]: a [FloatObject], a Python float.
    - [PyName s]: a [NameObject], a Python string that starts with a slash:
      [s] is what follows the slash, [name_str] the whole string.
    - [PyChar c]: a string of one ASCII character, as iterating a string
      yields.
    - [PyArr l]: an [ArrayObject] (or a tuple): a sequence of objects.
    Longer text strings are left out: what [float()] makes of them depends
    on Python's whole grammar of numeric literals. *)
#[local] Unset Elimination Schemes.
Inductive pyobj : Type :=
  | PyInt (z : Z)
  | PyFloat (x : pyfloat)
  | PyName (s : string)
  | PyChar (c : ascii)
  | PyArr (l : list pyobj).
#[local] Set Elimination Schemes.

(** The Python string of the name [PyName s]. *)
Definition name_str (s : string) : string := String "/" s.

(** [float(c)] on a string of one character: a decimal digit is converted,
    any other character raises [ValueError]. *)
Definition digit_float (c : ascii) : option pyfloat :=
  let n := nat_of_ascii c in
  if bool_decide (48 ≤ n ≤ 57)%nat then Some (float_of_Z (Z.of_nat (n - 48)))
  else None.

(** [float(o)]: [None] stands for the exception raised, [OverflowError] on
    an integer too large, [TypeError] on an array, [ValueError] on a name
    (its first character is the slash). *)
Definition py_float (o : pyobj) : option pyfloat :=
  match o with
  | PyInt z => int_to_float z
  | PyFloat x => Some x
  | PyName _ => None
  | PyChar c => digit_float c
  | PyArr _ => None
  end.

(** Truth value of an object: a number is true when it is not zero (NaN
    is true), a sequence when it is not empty; a name always has its
    slash. *)
Definition py_truthy (o : pyobj) : bool :=
  match o with
  | PyInt z => negb (bool_decide (z = 0%Z))
  | PyFloat x => negb (float_eq x (Fin 0%Qc))
  | PyName _ => true
  | PyChar _ => true
  | PyArr l => match l with [] => false | _ => true end
  end.

(** Truth value of the result of [dict.get]: [None] is false. *)
Definition py_truthy_opt (o : option pyobj) : bool :=
  match o with
  | None => false
  | Some v => py_truthy v
  end.

(** [for c in o]: the items that the iteration yields, or [None] for the
    [TypeError] of a number.  Iterating a string yields its characters. *)
Definition py_iter (o : pyobj) : option (list pyobj) :=
  match o with
  | PyInt _ => None
  | PyFloat _ => None
  | PyName s => Some (PyChar <$> list_ascii_of_string (name_str s))
  | PyChar c => Some [PyChar c]
  | PyArr l => Some l
  end.

(** [all(p(c) for c in l)]: the generator is consumed from the left, [all]
    stops at the first false item, and an exception raised by [p] before
    that comes out of [all]. *)
Fixpoint py_all {A} (p : A → option bool) (l : list A) : option bool :=
  match l with
  | [] => Some true
  | x :: l' =>
      match p x with
      | None => None
      | Some false => Some false
      | Some true => py_all p l'
      end
  end.

(** ** Float literals of the source *)

Definition float_0_0 : pyfloat := Fin 0%Qc.
Definition float_1 : pyfloat := Fin 1%Qc.
Definition float_5_0 : pyfloat := Fin (Q2Qc (5 # 1)).
(** [0.02] is the double 5764607523034235 * 2^-58. *)
Definition float_0_02 : pyfloat :=
  Fin (Q2Qc (5764607523034235 # 288230376151711744)).
(** [0.021] is the double 6052837899185947 * 2^-58. *)
Definition float_0_021 : pyfloat :=
  Fin (Q2Qc (6052837899185947 # 288230376151711744)).
(** [0.9] is the double 8106479329266893 * 2^-53. *)
Definition float_0_9 : pyfloat :=
  Fin (Q2Qc (8106479329266893 # 9007199254740992)).

(** ** Annotations *)

(** An annotation dictionary, already resolved from its reference: an
    entry of ["/Annots"] is taken to be a dictionary, or a reference to
    one.  On an entry of another kind the loop raises [AttributeError];
    such arrays are outside this model. *)
Abbreviation annot := (gmap string pyobj).

(** [_is_black(color)] *)
Definition _is_black (color : option pyobj) : bool :=
  match color with
  | None => false
  | Some c =>
      match
        items ← py_iter c;
        py_all (λ c, x ← py_float c; Some (float_eq x float_0_0)) items
      with
      | Some b => b
      | None => false
      end
  end.

Definition black_box_subtypes : list string :=
  ["/Square"; "/Polygon"; "/Highlight"; "/Ink"; "/Stamp"].

(** [subtype in ("/Square", ...)]: a name compares equal to the string it
    is; a number, an array or [None] to none of them. *)
Definition subtype_in (subtype : option pyobj) (names : list string) : bool :=
  match subtype with
  | Some (PyName s) => bool_decide (name_str s ∈ names)
  | _ => false
  end.

(** [a or b] on two results of [dict.get]. *)
Definition py_or (a b : option pyobj) : option pyobj :=
  if py_truthy_opt a then a else b.

(** [annot.get("/CA", annot.get("/ca", 1))]: the default is the integer. *)
Definition get_opacity (a : annot) : pyobj :=
  default (default (PyInt 1) (a !! "/ca")) (a !! "/CA").

(** [_looks_like_black_box(annot)] *)
Definition _looks_like_black_box (a : annot) : bool :=
  let subtype := a !! "/Subtype" in
  if negb (subtype_in subtype black_box_subtypes) then false
  else
    let color := py_or (a !! "/IC") (a !! "/C") in
    if negb (_is_black color) then false
    else
      let opacity := get_opacity a in
      match py_float opacity with
      | Some x => if float_lt x float_0_9 then false else true
      | None => true
      end.

(** ** Pages *)

(** A content-stream operation: the operands and the operator. *)
Record operation : Type := Op {
  operands : list pyobj;
  operator : string
}.

(** The value of ["/Annots"] as [page.get] hands it out, unresolved: the
    array itself, or an indirect reference to an array.  A reference that
    resolves to something else than an array is outside this model. *)
Inductive annots_value : Type :=
  | Direct (l : list annot)
  | Reference (l : list annot).

(** [annots.get_object()]: both kinds of value have the method. *)
Definition get_object (v : annots_value) : list annot :=
  match v with
  | Direct l => l
  | Reference l => l
  end.

(** Truth value of the unresolved entry: an array is true when it is not
    empty; a reference is an object without length, true whatever it
    points to. *)
Definition annots_truthy (v : annots_value) : bool :=
  match v with
  | Direct [] => false
  | Direct _ => true
  | Reference _ => true
  end.

(** A page, reduced to the two entries the passes read and write: the
    unresolved value of ["/Annots"] when the key is present, and the
    operations of its content stream, [None] when [get_contents()] is
    [None].  After [_remove_black_rectangles] has replaced the stream,
    [contents] is the list of operations it stored; what a parser would
    read back from the bytes written for that list is not modelled. *)
Record page : Type := Page {
  raw_annots : option annots_value;
  contents : option (list operation)
}.

(** The array of annotations of the page, resolved. *)
Definition annots (p : page) : option (list annot) :=
  get_object <$> raw_annots p.

Definition is_redact (a : annot) : bool :=
  match a !! "/Subtype" with
  | Some (PyName s) => bool_decide (name_str s = "/Redact")
  | _ => false
  end.

(** The two tests of the loop body together: is this annotation dropped? *)
Definition annot_removed (aggressive : bool) (a : annot) : bool :=
  if is_redact a then true
  else if aggressive && _looks_like_black_box a then true
  else false.

(** The loop of [_remove_redaction_annots]: [kept] is appended to on the
    right, [removed] is counted. *)
Fixpoint annots_loop (aggressive : bool) (l : list annot)
    (kept : list annot) (removed : nat) : list annot * nat :=
  match l with
  | [] => (kept, removed)
  | a :: l' =>
      if is_redact a then annots_loop aggressive l' kept (removed + 1)
      else if aggressive && _looks_like_black_box a
      then annots_loop aggressive l' kept (removed + 1)
      else annots_loop aggressive l' (kept ++ [a]) removed
  end.

(** [_remove_redaction_annots(page, aggressive)]: the count returned and the
    page after the call. *)
Definition _remove_redaction_annots (p : page) (aggressive : bool) : nat * page :=
  match raw_annots p with
  | None => (0, p)
  | Some v =>
      if negb (annots_truthy v) then (0, p)
      else
        let annots_obj := get_object v in
        let '(kept, removed) := annots_loop aggressive annots_obj [] 0 in
        match kept with
        | [] => (removed, Page None (contents p))
        | _ => (removed, Page (Some (Direct kept)) (contents p))
        end
  end.

(** ** Content streams *)

(** [_is_black_color(color, tol)] *)
Definition _is_black_color (color : option pyobj) (tol : pyfloat) : bool :=
  if negb (py_truthy_opt color) then false
  else
    match
      c ← color;
      items ← py_iter c;
      py_all (λ c, x ← py_float c; Some (float_le x tol)) items
    with
    | Some b => b
    | None => false
    end.

(** A fill colour: the tuple of three floats held in [fill_color]. *)
Definition rgb : Type := pyfloat * pyfloat * pyfloat.

(** The tuple as the sequence [_is_black_color] iterates over. *)
Definition rgb_obj (c : rgb) : pyobj :=
  let '(r, g, b) := c in PyArr [PyFloat r; PyFloat g; PyFloat b].

Definition black : rgb := (float_0_0, float_0_0, float_0_0).

(** The local variables of [_remove_black_rectangles] that the loop
    updates.  [color_stack] is the Python list with its last element, the
    one [pop()] takes, at the head. *)
Record scan_state : Type := ScanState {
  remove_indices : gset nat;
  path_indices : list nat;
  path_rects : list (pyfloat * pyfloat);
  path_has_non_rect : bool;
  fill_color : rgb;
  color_stack : list rgb
}.

Definition init_state : scan_state :=
  {| remove_indices := ∅; path_indices := []; path_rects := [];
     path_has_non_rect := false; fill_color := black;
     color_stack := [black] |}.

(** Assignments to the variables of the loop. *)
Definition set_path (st : scan_state) (indices : list nat)
    (rects : list (pyfloat * pyfloat)) (non_rect : bool) : scan_state :=
  {| remove_indices := remove_indices st; path_indices := indices;
     path_rects := rects; path_has_non_rect := non_rect;
     fill_color := fill_color st; color_stack := color_stack st |}.

Definition set_color (st : scan_state) (c : rgb) (stack : list rgb) : scan_state :=
  {| remove_indices := remove_indices st; path_indices := path_indices st;
     path_rects := path_rects st; path_has_non_rect := path_has_non_rect st;
     fill_color := c; color_stack := stack |}.

Definition set_removed (st : scan_state) (removed : gset nat) : scan_state :=
  {| remove_indices := removed; path_indices := path_indices st;
     path_rects := path_rects st; path_has_non_rect := path_has_non_rect st;
     fill_color := fill_color st; color_stack := color_stack st |}.

(** [reset_path()] *)
Definition reset_path (st : scan_state) : scan_state := set_path st [] [] false.

(** [float(operands[i])]: [None] for the [IndexError] of a missing operand
    or the exception of [float]. *)
Definition float_operand (ops : list pyobj) (i : nat) : option pyfloat :=
  o ← ops !! i; py_float o.

(** [_x, _y, w, h = map(float, operands)]: the unpacking succeeds when there
    are exactly four operands and [float] accepts each; it gives [(w, h)]. *)
Definition rect_operands (ops : list pyobj) : option (pyfloat * pyfloat) :=
  match ops with
  | [x; y; w; h] =>
      _ ← py_float x; _ ← py_float y; w' ← py_float w; h' ← py_float h;
      Some (w', h')
  | _ => None
  end.

Definition non_rect_ops : list string := ["m"; "l"; "c"; "v"; "y"; "h"].
Definition paint_ops : list string := ["f"; "f*"; "F"; "B"; "B*"].
Definition end_path_ops : list string := ["n"; "W"; "W*"; "S"; "s"].

(** [any(w >= min_width and h >= min_height for w, h in path_rects)] *)
Definition any_large (min_width min_height : pyfloat)
    (rects : list (pyfloat * pyfloat)) : bool :=
  existsb (λ '(w, h), float_le min_width w && float_le min_height h) rects.

(** The decision taken at a paint operator with a path in progress. *)
Definition should_remove (aggressive : bool) (min_width min_height : pyfloat)
    (st : scan_state) : bool :=
  if negb (path_has_non_rect st)
     && _is_black_color (Some (rgb_obj (fill_color st))) float_0_02
  then
    if aggressive then true
    else any_large min_width min_height (path_rects st)
  else false.

(** One turn of the loop over [enumerate(operations)]; [None] when the body
    raises (the conversions of [g] and [rg] are outside any [try]). *)
Definition step (aggressive : bool) (min_width min_height : pyfloat)
    (idx : nat) (op : operation) (st : scan_state) : option scan_state :=
  let 'Op operands operator := op in
  if bool_decide (operator = "q") then
    Some (set_color st (fill_color st) (fill_color st :: color_stack st))
  else if bool_decide (operator = "Q") then
    match color_stack st with
    | c :: stack' => Some (set_color st c stack')
    | [] => Some (set_color st black [])
    end
  else if bool_decide (operator = "g") then
    gray ← float_operand operands 0;
    Some (set_color st (gray, gray, gray) (color_stack st))
  else if bool_decide (operator = "rg") then
    r ← float_operand operands 0;
    g ← float_operand operands 1;
    b ← float_operand operands 2;
    Some (set_color st (r, g, b) (color_stack st))
  else if bool_decide (operator = "re") then
    let indices := path_indices st ++ [idx] in
    match rect_operands operands with
    | Some wh => Some (set_path st indices (path_rects st ++ [wh]) (path_has_non_rect st))
    | None => Some (set_path st indices (path_rects st) true)
    end
  else if bool_decide (operator ∈ non_rect_ops) then
    Some (set_path st (path_indices st ++ [idx]) (path_rects st) true)
  else if bool_decide (operator ∈ paint_ops) then
    match path_indices st with
    | [] => Some (reset_path st)
    | _ =>
        if should_remove aggressive min_width min_height st then
          Some (reset_path
                  (set_removed st
                     (remove_indices st ∪ list_to_set (path_indices st) ∪ {[idx]})))
        else Some (reset_path st)
    end
  else if bool_decide (operator ∈ end_path_ops) then
    Some (reset_path st)
  else Some st.

(** The [for] loop from index [idx] on. *)
Fixpoint scan_from (aggressive : bool) (min_width min_height : pyfloat)
    (idx : nat) (ops : list operation) (st : scan_state) : option scan_state :=
  match ops with
  | [] => Some st
  | op :: rest =>
      st' ← step aggressive min_width min_height idx op st;
      scan_from aggressive min_width min_height (S idx) rest st'
  end.

(** The whole scan: the set [remove_indices] when the loop ends. *)
Definition scan (aggressive : bool) (min_width min_height : pyfloat)
    (ops : list operation) : option (gset nat) :=
  remove_indices <$> scan_from aggressive min_width min_height 0 ops init_state.

(** [[op for i, op in enumerate(operations) if i not in remove_indices]] *)
Fixpoint filter_ops (idx : nat) (removed : gset nat) (ops : list operation)
    : list operation :=
  match ops with
  | [] => []
  | op :: rest =>
      if bool_decide (idx ∈ removed) then filter_ops (S idx) removed rest
      else op :: filter_ops (S idx) removed rest
  end.

(** [_remove_black_rectangles(page, reader, aggressive, min_width,
    min_height)]: [None] when the call raises, otherwise the count returned
    and the page after the call. *)
Definition _remove_black_rectangles (p : page) (aggressive : bool)
    (min_width min_height : pyfloat) : option (nat * page) :=
  match contents p with
  | None => Some (0, p)
  | Some operations =>
      removed ← scan aggressive min_width min_height operations;
      if bool_decide (removed = ∅) then Some (0, p)
      else Some (size removed,
                 Page (raw_annots p) (Some (filter_ops 0 removed operations)))
  end.


(** ** Notions used to state the properties *)

(** The annotations of [l] that the loop keeps, in their order. *)
Definition kept_annots (aggressive : bool) (l : list annot) : list annot :=
  filter (λ a, annot_removed aggressive a = false) l.

(** The number of annotations of [l] that the loop drops. *)
Definition removed_count (aggressive : bool) (l : list annot) : nat :=
  length (filter (λ a, annot_removed aggressive a = true) l).

(** A stream without the operators [q] and [Q]. *)
Definition without_q_Q (ops : list operation) : list operation :=
  filter (λ op, operator op ∉ ["q"; "Q"]) ops.

(** The states of a conservative and of an aggressive scan of the same
    operations: the same in all but the indices marked, of which the
    aggressive scan has at least those of the conservative one. *)
Definition mode_sim (c a : scan_state) : Prop :=
  path_indices c = path_indices a ∧
  path_rects c = path_rects a ∧
  path_has_non_rect c = path_has_non_rect a ∧
  fill_color c = fill_color a ∧
  color_stack c = color_stack a ∧
  remove_indices c ⊆ remove_indices a.

(** The operators whose conversions can raise. *)
Definition converts_operands (op : operation) : Prop :=
  operator op = "g" ∨ operator op = "rg".

(** The operators that end the path under construction: the paint
    operators and those of the last branch of the loop. *)
Definition ends_path (op : operation) : Prop :=
  operator op ∈ paint_ops ∨ operator op ∈ end_path_ops.

Definition is_paint (op : operation) : Prop := operator op ∈ paint_ops.

(** A path segment that is not a rectangle: one of [m l c v y h], or an [re]
    whose operands fail the conversion. *)
Definition non_rect_segment (op : operation) : Prop :=
  operator op ∈ non_rect_ops
  ∨ (operator op = "re" ∧ rect_operands (operands op) = None).

(** No path ends at the indices from [k] up to [j], not included: the
    operation at [k] belongs to the path under construction when the loop is
    at index [j]. *)
Definition open_from (ops : list operation) (k j : nat) : Prop :=
  k ≤ j ∧ ∀ m op, k ≤ m < j → ops !! m = Some op → ¬ ends_path op.

(** What holds of the state after the operations [pre] have been scanned:
    the indices of the path are those of an open stretch; a segment that is
    not a rectangle in the open stretch has set the flag; and an index is
    marked only with a paint operator that closes a path of rectangles. *)
Record scan_inv (pre : list operation) (st : scan_state) : Prop := ScanInv {
  inv_path : ∀ k, k ∈ path_indices st → k < length pre ∧ open_from pre k (length pre);
  inv_flag : ∀ k op,
    pre !! k = Some op → non_rect_segment op → open_from pre k (length pre) →
    path_has_non_rect st = true;
  inv_removed : ∀ k, k ∈ remove_indices st →
    ∃ j opj, pre !! j = Some opj ∧ is_paint opj ∧ open_from pre k j ∧
      ∀ i opi, open_from pre i j → pre !! i = Some opi → ¬ non_rect_segment opi
}.

(** ** Sample inputs *)

(** An integer operand or component. *)
Definition int_obj (z : Z) : pyobj := PyInt z.

(** [0.95] is the double 4278419646001971 * 2^-52, [0.5] is exact. *)
Definition float_0_95 : pyfloat :=
  Fin (Q2Qc (4278419646001971 # 4503599627370496)).
Definition float_0_5 : pyfloat := Fin (Q2Qc (1 # 2)).

(** A square with a black interior and the given opacity. *)
Definition black_square (opacity : pyobj) : annot :=
  {[ "/Subtype" := PyName "Square"; "/IC" := PyArr [int_obj 0; int_obj 0; int_obj 0];
     "/CA" := opacity ]}.

(** A square with a black interior whose opacity is the name [/Foo]. *)
Definition square_bad_opacity : annot := black_square (PyName "Foo").

(** An ink annotation whose only colour entry is the empty array. *)
Definition ink_empty_color : annot :=
  {[ "/Subtype" := PyName "Ink"; "/C" := PyArr [] ]}.

(** A text annotation, which neither test of the loop drops. *)
Definition text_note : annot := {[ "/Subtype" := PyName "Text" ]}.

(** A redaction marker. *)
Definition redact_mark : annot := {[ "/Subtype" := PyName "Redact" ]}.

(** A page whose ["/Annots"] entry is the empty array. *)
Definition page_empty_annots : page := Page (Some (Direct [])) None.

(** Scenario A: the stream [q 0 0 0 rg 10 10 100 50 re f Q]. *)
Definition scenario_A : list operation :=
  [Op [] "q"; Op [int_obj 0; int_obj 0; int_obj 0] "rg";
   Op [int_obj 10; int_obj 10; int_obj 100; int_obj 50] "re";
   Op [] "f"; Op [] "Q"].

(** What Scenario A leaves behind: [q 0 0 0 rg Q]. *)
Definition scenario_A_output : list operation :=
  [Op [] "q"; Op [int_obj 0; int_obj 0; int_obj 0] "rg"; Op [] "Q"].

(** Scenario C: the stream [q 0 0 0 rg 1 1 2 2 re f Q]. *)
Definition scenario_C : list operation :=
  [Op [] "q"; Op [int_obj 0; int_obj 0; int_obj 0] "rg";
   Op [int_obj 1; int_obj 1; int_obj 2; int_obj 2] "re";
   Op [] "f"; Op [] "Q"].

(** [r g b rg 0 0 10 10 re f]: one filled square in the colour [(r, g, b)]. *)
Definition filled_square (c : rgb) : list operation :=
  let '(r, g, b) := c in
  [Op [PyFloat r; PyFloat g; PyFloat b] "rg";
   Op [int_obj 0; int_obj 0; int_obj 10; int_obj 10] "re"; Op [] "f"].

(** Three restores and no save, then a filled square. *)
Definition unbalanced_restores : list operation :=
  [Op [] "Q"; Op [] "Q"; Op [] "Q";
   Op [int_obj 0; int_obj 0; int_obj 10; int_obj 10] "re"; Op [] "f"].

(** A restore, the gray level 1, a second restore, then a filled square:
    [Q 1 g Q 0 0 10 10 re f]. *)
Definition restore_after_white : list operation :=
  [Op [] "Q"; Op [int_obj 1] "g"; Op [] "Q";
   Op [int_obj 0; int_obj 0; int_obj 10; int_obj 10] "re"; Op [] "f"].

(** The same without the second restore: [Q 1 g 0 0 10 10 re f]. *)
Definition white_without_restore : list operation :=
  [Op [] "Q"; Op [int_obj 1] "g";
   Op [int_obj 0; int_obj 0; int_obj 10; int_obj 10] "re"; Op [] "f"].

(** A black square, then a path begun with [m] that goes on with a square,
    then a path begun with an [re] of three operands: [0 0 10 10 re f
    0 0 m 0 0 10 10 re f 0 0 10 re 0 0 10 10 re B]. *)
Definition mixed_paths : list operation :=
  let square := Op [int_obj 0; int_obj 0; int_obj 10; int_obj 10] "re" in
  [square; Op [] "f";
   Op [int_obj 0; int_obj 0] "m"; square; Op [] "f";
   Op [int_obj 0; int_obj 0; int_obj 10] "re"; square; Op [] "B"].

(** ** Notions for the further properties *)

(** The annotation list of a page as a list: none when the entry is
    absent. *)
Definition page_annots (p : page) : list annot := default [] (annots p).

(** The sequence that the black test of an annotation iterates over: the
    items of [/IC or /C], when there is such an entry and it is iterable. *)
Definition color_items (a : annot) : option (list pyobj) :=
  c ← py_or (a !! "/IC") (a !! "/C"); py_iter c.

(** An [re] whose four operands convert: a rectangle of the path. *)
Definition good_rect (op : operation) : Prop :=
  operator op = "re" ∧ is_Some (rect_operands (operands op)).

(** An operator that neither builds nor ends a path: the loop can only
    change the colour and the stack at such an operator. *)
Definition plain_op (op : operation) : Prop :=
  (operator op ≠ "re") ∧ (operator op ∉ non_rect_ops) ∧
  (operator op ∉ paint_ops) ∧ (operator op ∉ end_path_ops).

(** What the branches [q], [Q], [g] and [rg] of the loop do to the fill
    colour and to the stack; [None] when a conversion raises. *)
Definition color_step (op : operation) (c : rgb) (stack : list rgb)
    : option (rgb * list rgb) :=
  if bool_decide (operator op = "q") then Some (c, c :: stack)
  else if bool_decide (operator op = "Q") then
    match stack with
    | c' :: stack' => Some (c', stack')
    | [] => Some (black, [])
    end
  else if bool_decide (operator op = "g") then
    gray ← float_operand (operands op) 0; Some ((gray, gray, gray), stack)
  else if bool_decide (operator op = "rg") then
    r ← float_operand (operands op) 0;
    g ← float_operand (operands op) 1;
    b ← float_operand (operands op) 2;
    Some ((r, g, b), stack)
  else Some (c, stack).

(** What holds of the indices when the loop is at index [idx]: those
    marked and those of the path are below [idx], no index of the path is
    marked yet, and without path there are no rectangles and no flag. *)
Record scan_wf (idx : nat) (st : scan_state) : Prop := ScanWf {
  wf_removed : ∀ k, k ∈ remove_indices st → k < idx;
  wf_path : ∀ k, k ∈ path_indices st → k < idx ∧ k ∉ remove_indices st;
  wf_empty : path_indices st = [] →
             path_rects st = [] ∧ path_has_non_rect st = false
}.

(** What holds of the operations, in the stream [all], at the indices of
    the state: a path without flag is made of rectangles, an index marked
    is that of a rectangle or of a paint operator, and with it a rectangle
    and a paint operator are marked. *)
Record scan_kinds (all : list operation) (st : scan_state) : Prop := ScanKinds {
  kinds_path : path_has_non_rect st = false →
    ∀ k, k ∈ path_indices st → ∃ op, all !! k = Some op ∧ good_rect op;
  kinds_removed : ∀ k, k ∈ remove_indices st →
    ∃ op, all !! k = Some op ∧ (is_paint op ∨ good_rect op);
  kinds_pair : ∀ k, k ∈ remove_indices st →
    ∃ i j opi opj, i ∈ remove_indices st ∧ j ∈ remove_indices st ∧
      all !! i = Some opi ∧ good_rect opi ∧ all !! j = Some opj ∧ is_paint opj
}.

(** A triangle drawn with [m] and [l] and filled: no [re] at all. *)
Definition filled_triangle : list operation :=
  [Op [int_obj 0; int_obj 0] "m"; Op [int_obj 10; int_obj 0] "l";
   Op [int_obj 0; int_obj 10] "l"; Op [] "h"; Op [] "f"].

(** A black square that is filled, one that is stroked and one that is used
    as clipping path: [0 0 10 10 re f 0 0 10 10 re S 0 0 10 10 re W n]. *)
Definition stroked_and_clipped : list operation :=
  let square := Op [int_obj 0; int_obj 0; int_obj 10; int_obj 10] "re" in
  [square; Op [] "f"; square; Op [] "S"; square; Op [] "W"; Op [] "n"].

(** The nesting of [q] and [Q] in a stream: the number of saves still open
    after [ops] when [d] are open before, [None] when some [Q] has no [q]
    to match. *)
Fixpoint scope_depth (d : nat) (ops : list operation) : option nat :=
  match ops with
  | [] => Some d
  | op :: rest =>
      if bool_decide (operator op = "q") then scope_depth (S d) rest
      else if bool_decide (operator op = "Q") then
        match d with
        | 0 => None
        | S d' => scope_depth d' rest
        end
      else scope_depth d rest
  end.

(** Every [Q] of the stream matches a [q] of the stream, and conversely. *)
Definition balanced (ops : list operation) : Prop := scope_depth 0 ops = Some 0.

(** An operator [g] or [rg] whose operands make the loop raise. *)
Definition bad_color_op (op : operation) : Prop :=
  (operator op = "g" ∧ float_operand (operands op) 0 = None)
  ∨ (operator op = "rg"
     ∧ (float_operand (operands op) 0 = None
        ∨ float_operand (operands op) 1 = None
        ∨ float_operand (operands op) 2 = None)).

(** A balanced stream that changes the colour outside and inside a scope
    of its own: [1 g q 0 0 1 rg Q]. *)
Definition scoped_body : list operation :=
  [Op [int_obj 1] "g"; Op [] "q"; Op [int_obj 0; int_obj 0; int_obj 1] "rg";
   Op [] "Q"].

(** A stream whose [g] has a name as operand. *)
Definition bad_gray : list operation :=
  [Op [int_obj 0; int_obj 0; int_obj 10; int_obj 10] "re";
   Op [PyName "Pattern"] "g"; Op [] "f"].

(** A stream whose [g] has as operand an integer beyond the range of
    floats, and one whose [re] has such a width. *)
Definition huge_gray : list operation :=
  [Op [int_obj (10 ^ 400)] "g";
   Op [int_obj 0; int_obj 0; int_obj 10; int_obj 10] "re"; Op [] "f"].

Definition huge_width : list operation :=
  [Op [int_obj 0; int_obj 0; int_obj (10 ^ 400); int_obj 10] "re"; Op [] "f"].

(** Squares of 100 by 50, of 6 by 6 and of 2 by 2, each filled in black. *)
Definition three_sizes : list operation :=
  [Op [int_obj 0; int_obj 0; int_obj 100; int_obj 50] "re"; Op [] "f";
   Op [int_obj 0; int_obj 0; int_obj 6; int_obj 6] "re"; Op [] "f";
   Op [int_obj 0; int_obj 0; int_obj 2; int_obj 2] "re"; Op [] "f"].

(** The state [st] of a scan of a stream, and the state [st2] of the scan
    of what is left of that stream once the indices [removed] are taken
    out, at the same point: the colour and the stack agree, the second scan
    has marked nothing, and either the path of the first is one that is
    taken out, and the second has no path, or no index of it is taken out,
    and the second has the same rectangles and flag. *)
Definition filtered_sim (removed : gset nat) (st st2 : scan_state) : Prop :=
  fill_color st2 = fill_color st ∧
  color_stack st2 = color_stack st ∧
  remove_indices st2 = ∅ ∧
  ((path_indices st ≠ [] ∧ (∀ k, k ∈ path_indices st → k ∈ removed) ∧
    path_indices st2 = [] ∧ path_rects st2 = [] ∧ path_has_non_rect st2 = false)
   ∨ ((∀ k, k ∈ path_indices st → k ∉ removed) ∧
      path_rects st2 = path_rects st ∧
      path_has_non_rect st2 = path_has_non_rect st ∧
      (path_indices st2 = [] ↔ path_indices st = []))).

(** A fill colour that the stream test takes for black: each channel is at
    most the tolerance 0.02, in the sense of [<=] on floats. *)
Definition within_tolerance (c : rgb) : Prop :=
  let '(r, g, b) := c in
  float_le r float_0_02 = true ∧ float_le g float_0_02 = true
  ∧ float_le b float_0_02 = true.

(** Some rectangle of the path is at least as wide and as high as the
    thresholds. *)
Definition some_large (min_width min_height : pyfloat)
    (rects : list (pyfloat * pyfloat)) : Prop :=
  Exists (λ '(w, h), float_le min_width w = true ∧ float_le min_height h = true)
    rects.

(** A black rectangle whose width is the integer 2^53 + 3. *)
Definition wide_rectangle : list operation :=
  [Op [int_obj 0; int_obj 0; int_obj (2 ^ 53 + 3); int_obj 10] "re"; Op [] "f"].

(** ** The loop over the pages *)

(** The defaults of [min_width] and [min_height], which [main] and
    [_unredact_pdf] leave in place. *)
Definition default_min_width : pyfloat := float_5_0.
Definition default_min_height : pyfloat := float_5_0.

(** The loop of [main] over [reader.pages]: both passes on each page, with
    [aggressive = True] and the default thresholds, the two totals counted
    and the page added to the writer; [None] when a pass raises, which
    ends [main] before anything is written.  The result is the two totals
    and the pages added, in order. *)
Fixpoint main_loop (pages : list page) (total_removed total_rect_ops : nat)
    (written : list page) : option (nat * nat * list page) :=
  match pages with
  | [] => Some (total_removed, total_rect_ops, written)
  | page :: rest =>
      let '(removed, page1) := _remove_redaction_annots page true in
      '(rect_ops, page2) ←
        _remove_black_rectangles page1 true default_min_width default_min_height;
      main_loop rest (total_removed + removed) (total_rect_ops + rect_ops)
        (written ++ [page2])
  end.

(** The loop of [_unredact_pdf] in [app.py]: the same two calls on each
    page, their results dropped. *)
Fixpoint unredact_pdf_loop (pages : list page) (written : list page)
    : option (list page) :=
  match pages with
  | [] => Some written
  | page :: rest =>
      let page1 := (_remove_redaction_annots page true).2 in
      '(_, page2) ←
        _remove_black_rectangles page1 true default_min_width default_min_height;
      unredact_pdf_loop rest (written ++ [page2])
  end.

(** The content stream of a page as a list: none when the page has no
    content stream. *)
Definition page_ops (p : page) : list operation := default [] (contents p).

(** One turn of the loop of [main]: the two counts and the page. *)
Definition process_page (p : page) : option (nat * nat * page) :=
  let '(removed, page1) := _remove_redaction_annots p true in
  '(rect_ops, page2) ←
    _remove_black_rectangles page1 true default_min_width default_min_height;
  Some (removed, rect_ops, page2).

(** A page with a redaction marker, a black square and a note, and with
    the stream of Scenario A; and a page with neither. *)
Definition sample_document : list page :=
  [Page (Some (Direct [redact_mark; text_note; black_square (PyFloat float_1)]))
        (Some scenario_A);
   Page None None].

(** What the loop writes for the sample document. *)
Definition sample_document_output : list page :=
  [Page (Some (Direct [text_note])) (Some scenario_A_output); Page None None].

(** ** Tactics *)

(** Splits a membership in a list that is given into its cases. *)
Ltac split_elem_of H :=
  repeat (apply elem_of_cons in H as [-> | H]); [.. | by apply elem_of_nil in H].

(** Refutes a membership of a given operator in a given list. *)
Ltac absurd_elem_of H :=
  exfalso; revert H; apply (bool_decide_unpack (¬ _)); vm_compute; exact I.

(** * Properties *)

(** ** Numbers *)

(** [float] of an integer: exact below 2^53, rounded to the nearest double
    above, ties to even, and an error beyond the largest double. *)
Example int_to_float_rounds :
  int_to_float 3 = Some (float_of_Z 3) ∧
  int_to_float (2 ^ 53 + 1) = Some (float_of_Z (2 ^ 53)) ∧
  int_to_float (2 ^ 53 + 3) = Some (float_of_Z (2 ^ 53 + 4)) ∧
  int_to_float (- (2 ^ 53 + 3)) = Some (float_of_Z (- (2 ^ 53 + 4))) ∧
  int_to_float (2 ^ 1024 - 2 ^ 970 - 1) = Some (float_of_Z (2 ^ 1024 - 2 ^ 971)) ∧
  int_to_float (2 ^ 1024 - 2 ^ 970) = None ∧
  int_to_float (10 ^ 400) = None ∧
  int_to_float (- 10 ^ 400) = None.
Proof. repeat split; vm_compute; reflexivity. Qed.

(** Below 2^53 the conversion is exact. *)
Lemma int_to_float_small (z : Z) :
  (Z.abs z < 2 ^ 53)%Z → int_to_float z = Some (float_of_Z z).
Proof.
  intros Hz. unfold int_to_float. simpl.
  by rewrite (proj2 (Z.ltb_lt _ _) Hz).
Qed.

(** No comparison holds of NaN, and the infinities are at the ends. *)
Example float_comparisons :
  float_lt NaN float_0_9 = false ∧ float_le NaN float_0_9 = false ∧
  float_le float_0_9 NaN = false ∧ float_eq NaN NaN = false ∧
  float_lt NInf float_0_9 = true ∧ float_lt PInf float_0_9 = false ∧
  float_le float_0_02 float_0_02 = true ∧ float_lt float_0_02 float_0_021 = true.
Proof. repeat split; reflexivity. Qed.

Lemma float_le_trans (a b c : pyfloat) :
  float_le a b = true → float_le b c = true → float_le a c = true.
Proof.
  destruct a as [x| | |], b as [y| | |], c as [z| | |]; simpl; try done.
  rewrite !bool_decide_eq_true. apply Qcle_trans.
Qed.

(** ** The annotation pass *)

Lemma annots_loop_spec aggressive l kept removed :
  annots_loop aggressive l kept removed =
  (kept ++ kept_annots aggressive l, removed + removed_count aggressive l).
Proof.
  revert kept removed. unfold kept_annots, removed_count.
  induction l as [|a l IH]; intros kept removed; simpl.
  - by rewrite app_nil_r, Nat.add_0_r.
  - assert (annot_removed aggressive a =
            (if is_redact a then true
             else if aggressive && _looks_like_black_box a then true else false))
      as Hdef by done.
    rewrite !filter_cons.
    destruct (is_redact a); [|destruct (aggressive && _looks_like_black_box a)];
      rewrite IH, Hdef; simpl; f_equal; try lia.
    by rewrite <- app_assoc.
Qed.

Lemma remove_redaction_annots_spec p aggressive :
  _remove_redaction_annots p aggressive =
  match raw_annots p with
  | None => (0, p)
  | Some v =>
      if annots_truthy v then
        (removed_count aggressive (get_object v),
         match kept_annots aggressive (get_object v) with
         | [] => Page None (contents p)
         | kept => Page (Some (Direct kept)) (contents p)
         end)
      else (0, p)
  end.
Proof.
  unfold _remove_redaction_annots. destruct (raw_annots p) as [v|]; [|done].
  destruct (annots_truthy v); [|done]. simpl negb. cbv iota.
  rewrite annots_loop_spec. simpl app.
  by destruct (kept_annots aggressive (get_object v)).
Qed.

Lemma kept_annots_idemp aggressive l :
  kept_annots aggressive (kept_annots aggressive l) = kept_annots aggressive l.
Proof.
  unfold kept_annots. induction l as [|a l IH]; [done|].
  rewrite filter_cons. case_decide as Ha; [|done].
  rewrite filter_cons. rewrite decide_True by done. by rewrite IH.
Qed.

Lemma removed_count_kept aggressive l :
  removed_count aggressive (kept_annots aggressive l) = 0.
Proof.
  unfold removed_count, kept_annots. induction l as [|a l IH]; [done|].
  rewrite filter_cons. case_decide as Ha; [|done].
  rewrite filter_cons. rewrite decide_False by congruence. done.
Qed.

Lemma elem_of_kept_annots aggressive a l :
  a ∈ kept_annots aggressive l ↔ a ∈ l ∧ annot_removed aggressive a = false.
Proof. unfold kept_annots. rewrite list_elem_of_filter. tauto. Qed.

Lemma removed_annot_not_kept p aggressive a kept :
  annot_removed aggressive a = true →
  annots (_remove_redaction_annots p aggressive).2 = Some kept →
  a ∉ kept.
Proof.
  intros Ha. rewrite remove_redaction_annots_spec. unfold annots.
  destruct (raw_annots p) as [v|] eqn:Hp; simpl; [|by rewrite Hp].
  destruct (annots_truthy v) eqn:Hv; simpl.
  - destruct (kept_annots aggressive (get_object v)) as [|c k] eqn:Hk; simpl; [done|].
    intros [= <-]. rewrite <- Hk, elem_of_kept_annots. intros [_ Hf]. congruence.
  - rewrite Hp. simpl. intros [= <-].
    destruct v as [[|b l]|l]; try done. apply not_elem_of_nil.
Qed.

Lemma eligible_not_redact (a : annot) :
  subtype_in (a !! "/Subtype") black_box_subtypes = true → is_redact a = false.
Proof.
  unfold subtype_in, is_redact.
  destruct (a !! "/Subtype") as [[| | s | |]|]; try done.
  intros Hin. apply bool_decide_eq_false. intros Hs.
  by rewrite Hs in Hin.
Qed.

(** C1 (as stated, refuted): a square with interior colour [0 0 0] and the
    name [/Foo] as opacity is of an eligible subtype, passes the black test,
    has an opacity that [float] rejects, and yet is classified as a black
    box and removed in aggressive mode. *)
Lemma C1_counterexample :
  subtype_in (square_bad_opacity !! "/Subtype") black_box_subtypes = true ∧
  _is_black (py_or (square_bad_opacity !! "/IC") (square_bad_opacity !! "/C")) = true ∧
  py_float (get_opacity square_bad_opacity) = None ∧
  _looks_like_black_box square_bad_opacity = true ∧
  _remove_redaction_annots (Page (Some (Direct [square_bad_opacity])) None) true
  = (1, Page None None).
Proof. repeat split; reflexivity. Qed.

(** C1 (amended): for an annotation of an eligible subtype whose interior or
    fill colour passes the black test, an opacity that fails to parse as a
    number switches the opacity check off: the annotation is classified as
    a black box, the aggressive pass removes it from every page that lists
    it, and the conservative pass keeps it. *)
Theorem C1_unparsable_opacity_ignored (a : annot) :
  subtype_in (a !! "/Subtype") black_box_subtypes = true →
  _is_black (py_or (a !! "/IC") (a !! "/C")) = true →
  py_float (get_opacity a) = None →
  _looks_like_black_box a = true ∧
  annot_removed true a = true ∧
  annot_removed false a = false ∧
  ∀ p kept, annots (_remove_redaction_annots p true).2 = Some kept → a ∉ kept.
Proof.
  intros Hsub Hblack Hop.
  assert (_looks_like_black_box a = true) as Hbox.
  { unfold _looks_like_black_box. by rewrite Hsub, Hblack, Hop. }
  assert (annot_removed true a = true) as Hrem.
  { unfold annot_removed. rewrite Hbox. by destruct (is_redact a). }
  repeat split; try done.
  - unfold annot_removed. by rewrite (eligible_not_redact a Hsub).
  - intros p kept. by apply removed_annot_not_kept.
Qed.

(** The amended C1 at the square whose opacity is [/Foo]. *)
Lemma C1_unparsable_opacity_ignored_witness :
  _looks_like_black_box square_bad_opacity = true ∧
  annot_removed true square_bad_opacity = true ∧
  annot_removed false square_bad_opacity = false ∧
  ∀ p kept, annots (_remove_redaction_annots p true).2 = Some kept →
            square_bad_opacity ∉ kept.
Proof. apply (C1_unparsable_opacity_ignored square_bad_opacity); reflexivity. Defined.

(** C4 (as stated, refuted): on a page whose annotation list is present
    as a direct, empty array the pass returns at its first test, in both
    modes, and the page keeps its empty list. *)
Lemma C4_counterexample :
  raw_annots page_empty_annots = Some (Direct []) ∧
  _remove_redaction_annots page_empty_annots false = (0, page_empty_annots) ∧
  _remove_redaction_annots page_empty_annots true = (0, page_empty_annots) ∧
  annots (_remove_redaction_annots page_empty_annots false).2 = Some [] ∧
  annots (_remove_redaction_annots page_empty_annots true).2 = Some [].
Proof. repeat split; reflexivity. Qed.

(** The same empty list behind an indirect reference passes the first test
    and the entry is removed; a reference to a list of which something is
    kept is replaced by the direct array of what is kept. *)
Example empty_annots_by_reference :
  _remove_redaction_annots (Page (Some (Reference [])) None) false
  = (0, Page None None) ∧
  _remove_redaction_annots (Page (Some (Reference [])) None) true
  = (0, Page None None) ∧
  _remove_redaction_annots (Page (Some (Reference [text_note; redact_mark])) None) false
  = (1, Page (Some (Direct [text_note])) None).
Proof. repeat split; vm_compute; reflexivity. Qed.

(** C4 (amended): a page whose ["/Annots"] entry is absent or is a direct
    empty array is left as it is.  On any other page, the entry being a
    non-empty array or a reference to an array, empty or not, the entry is
    removed when no annotation is kept and is otherwise replaced by the
    direct array of the kept annotations in their original order, and the
    content stream is not touched.  So the page ends with an empty list
    only if it started with a direct empty array, and it never ends with a
    reference. *)
Theorem C4_annots_absent_or_kept (p : page) (aggressive : bool) :
  let p' := (_remove_redaction_annots p aggressive).2 in
  (raw_annots p = None ∨ raw_annots p = Some (Direct []) → p' = p) ∧
  (∀ v, raw_annots p = Some v → v ≠ Direct [] →
     contents p' = contents p ∧
     kept_annots aggressive (get_object v) `sublist_of` get_object v ∧
     (∀ a, a ∈ kept_annots aggressive (get_object v)
           ↔ a ∈ get_object v ∧ annot_removed aggressive a = false) ∧
     (kept_annots aggressive (get_object v) = [] → raw_annots p' = None) ∧
     (kept_annots aggressive (get_object v) ≠ [] →
      raw_annots p' = Some (Direct (kept_annots aggressive (get_object v))))) ∧
  (annots p' = Some [] → raw_annots p = Some (Direct [])) ∧
  (∀ l, raw_annots p' ≠ Some (Reference l)).
Proof.
  simpl. rewrite remove_redaction_annots_spec. split; [|split; [|split]].
  - by intros [-> | ->].
  - intros v Hv Hne. rewrite Hv.
    assert (annots_truthy v = true) as -> by (by destruct v as [[|a l]|l]).
    split; [by destruct (kept_annots aggressive (get_object v))|].
    split; [apply sublist_filter|].
    split; [intros b; apply elem_of_kept_annots|].
    split; [by intros ->|].
    by destruct (kept_annots aggressive (get_object v)).
  - unfold annots. destruct (raw_annots p) as [v|] eqn:Hp; simpl; [|by rewrite Hp].
    destruct (annots_truthy v) eqn:Hv; simpl.
    + by destruct (kept_annots aggressive (get_object v)).
    + rewrite Hp. by destruct v as [[|a l]|l].
  - intros l. destruct (raw_annots p) as [v|] eqn:Hp; simpl; [|by rewrite Hp].
    destruct (annots_truthy v) eqn:Hv; simpl.
    + by destruct (kept_annots aggressive (get_object v)).
    + rewrite Hp. by destruct v as [[|a l']|l'].
Qed.

(** C5: the annotation pass is idempotent: run again, with the same mode, on
    the page it produced, it removes nothing and returns that page. *)
Theorem C5_remove_redaction_annots_idempotent (p : page) (aggressive : bool) :
  _remove_redaction_annots (_remove_redaction_annots p aggressive).2 aggressive
  = (0, (_remove_redaction_annots p aggressive).2).
Proof.
  rewrite (remove_redaction_annots_spec p).
  destruct (raw_annots p) as [v|] eqn:Hp; simpl.
  - destruct (annots_truthy v) eqn:Hv; simpl.
    + destruct (kept_annots aggressive (get_object v)) as [|b k] eqn:Hk; [done|].
      rewrite remove_redaction_annots_spec. simpl.
      rewrite <- Hk, kept_annots_idemp, removed_count_kept. by rewrite Hk.
    + rewrite remove_redaction_annots_spec. by rewrite Hp, Hv.
  - rewrite remove_redaction_annots_spec. by rewrite Hp.
Qed.

(** C10: an annotation of an eligible subtype whose interior colour is
    absent or the empty array, whose fill colour is the empty array and
    which has neither opacity key passes the black test with no component
    at all, is classified as a black box and is removed by the aggressive
    pass. *)
Theorem C10_empty_color_is_black (a : annot) :
  subtype_in (a !! "/Subtype") black_box_subtypes = true →
  a !! "/IC" = None ∨ a !! "/IC" = Some (PyArr []) →
  a !! "/C" = Some (PyArr []) →
  a !! "/CA" = None → a !! "/ca" = None →
  _is_black (py_or (a !! "/IC") (a !! "/C")) = true ∧
  _looks_like_black_box a = true ∧
  annot_removed true a = true ∧
  ∀ p kept, annots (_remove_redaction_annots p true).2 = Some kept → a ∉ kept.
Proof.
  intros Hsub Hic Hc Hca1 Hca2.
  assert (_is_black (py_or (a !! "/IC") (a !! "/C")) = true) as Hblack.
  { rewrite Hc. by destruct Hic as [-> | ->]. }
  assert (_looks_like_black_box a = true) as Hbox.
  { unfold _looks_like_black_box, get_opacity.
    rewrite Hsub, Hblack, Hca1, Hca2. reflexivity. }
  assert (annot_removed true a = true) as Hrem.
  { unfold annot_removed. rewrite Hbox. by destruct (is_redact a). }
  repeat split; try done.
  intros p kept. by apply removed_annot_not_kept.
Qed.

(** C10 at the ink annotation whose fill colour is the empty array. *)
Lemma C10_empty_color_is_black_witness :
  _is_black (py_or (ink_empty_color !! "/IC") (ink_empty_color !! "/C")) = true ∧
  _looks_like_black_box ink_empty_color = true ∧
  annot_removed true ink_empty_color = true ∧
  ∀ p kept, annots (_remove_redaction_annots p true).2 = Some kept →
            ink_empty_color ∉ kept.
Proof.
  apply (C10_empty_color_is_black ink_empty_color);
    [reflexivity | left; reflexivity | reflexivity | reflexivity | reflexivity].
Defined.

(** Scenarios D and E: a black square of opacity 0.95 is removed by the
    aggressive pass and one of opacity 0.5 is kept; a redaction marker is
    removed in both modes; a text annotation is kept. *)
Example scenarios_D_E :
  _remove_redaction_annots
    (Page (Some (Direct [text_note; black_square (PyFloat float_0_95); redact_mark;
                         black_square (PyFloat float_0_5)])) None) true
  = (2, Page (Some (Direct [text_note; black_square (PyFloat float_0_5)])) None) ∧
  _remove_redaction_annots
    (Page (Some (Direct [text_note; black_square (PyFloat float_0_95);
                         redact_mark])) None) false
  = (1, Page (Some (Direct [text_note; black_square (PyFloat float_0_95)])) None) ∧
  _remove_redaction_annots (Page (Some (Direct [redact_mark])) None) false
  = (1, Page None None).
Proof. repeat split; vm_compute; reflexivity. Qed.

(** ** The content-stream pass *)

Lemma is_black_color_rgb (r g b tol : pyfloat) :
  _is_black_color (Some (rgb_obj (r, g, b))) tol = true
  ↔ float_le r tol = true ∧ float_le g tol = true ∧ float_le b tol = true.
Proof.
  unfold _is_black_color. simpl.
  destruct (float_le r tol), (float_le g tol), (float_le b tol); simpl;
    split; try done; intros (? & ? & ?); done.
Qed.

(** C9: at the tolerance 0.02 of the stream test the colour (0.02, 0.02,
    0.02) is black and (0.021, 0, 0) is not; in general a colour is black
    exactly when each channel is at most the tolerance, for finite channels
    as numbers and for all floats in the sense of [<=], which no NaN
    satisfies.  Seen from the pass:
    a square filled in the first colour is removed, one filled in the second
    is not. *)
Theorem C9_tolerance_boundary :
  _is_black_color (Some (rgb_obj (float_0_02, float_0_02, float_0_02))) float_0_02 = true ∧
  _is_black_color (Some (rgb_obj (float_0_021, float_0_0, float_0_0))) float_0_02 = false ∧
  (∀ r g b tol : Qc,
     _is_black_color (Some (rgb_obj (Fin r, Fin g, Fin b))) (Fin tol) = true
     ↔ (r ≤ tol)%Qc ∧ (g ≤ tol)%Qc ∧ (b ≤ tol)%Qc) ∧
  (∀ r g b tol : pyfloat,
     _is_black_color (Some (rgb_obj (r, g, b))) tol = true
     ↔ float_le r tol = true ∧ float_le g tol = true ∧ float_le b tol = true) ∧
  scan true float_5_0 float_5_0 (filled_square (float_0_02, float_0_02, float_0_02))
  = Some {[1; 2]} ∧
  scan true float_5_0 float_5_0 (filled_square (float_0_021, float_0_0, float_0_0))
  = Some ∅.
Proof.
  split; [reflexivity|]. split; [reflexivity|].
  split.
  { intros r g b tol. rewrite is_black_color_rgb. simpl.
    by rewrite !bool_decide_eq_true. }
  split; [apply is_black_color_rgb|]. split; reflexivity.
Qed.

(** C2 (as stated, refuted): in aggressive mode Scenario A loses the
    operators [re] and [f], at indices 2 and 3, and the count returned is 2,
    but the stream left is not empty apart from [q] and [Q]: the colour
    operator [rg] is still there. *)
Lemma C2_counterexample :
  scan true float_5_0 float_5_0 scenario_A = Some {[2; 3]} ∧
  _remove_black_rectangles (Page None (Some scenario_A)) true float_5_0 float_5_0
  = Some (2, Page None (Some scenario_A_output)) ∧
  without_q_Q scenario_A_output = [Op [int_obj 0; int_obj 0; int_obj 0] "rg"] ∧
  without_q_Q scenario_A_output ≠ [].
Proof. repeat split; try reflexivity. discriminate. Qed.

(** C2 (amended): in aggressive mode, whatever the thresholds and the
    annotations of the page, Scenario A loses exactly the operators [re] and
    [f], the count returned is 2 and the stream left is [q 0 0 0 rg Q]: no
    path or paint operator, but the colour operator as well as [q] and
    [Q]. *)
Theorem C2_scenario_A (min_width min_height : pyfloat) (an : option annots_value) :
  scan true min_width min_height scenario_A = Some {[2; 3]} ∧
  filter_ops 0 {[2; 3]} scenario_A = scenario_A_output ∧
  _remove_black_rectangles (Page an (Some scenario_A)) true min_width min_height
  = Some (2, Page an (Some scenario_A_output)).
Proof. repeat split; reflexivity. Qed.

(** C7: on a page without content stream the pass returns 0 and the page as
    it is; so it does on a page whose scan marks no index. *)
Theorem C7_nothing_to_remove (p : page) (aggressive : bool)
    (min_width min_height : pyfloat) :
  (contents p = None →
   _remove_black_rectangles p aggressive min_width min_height = Some (0, p)) ∧
  (∀ ops, contents p = Some ops →
     scan aggressive min_width min_height ops = Some ∅ →
     _remove_black_rectangles p aggressive min_width min_height = Some (0, p)).
Proof.
  unfold _remove_black_rectangles. split.
  - by intros ->.
  - intros ops -> ->. reflexivity.
Qed.

(** C7 at a page without content stream and, in conservative mode, at a
    page that holds Scenario C, whose square of 2 by 2 is below the
    thresholds. *)
Lemma C7_nothing_to_remove_witness :
  _remove_black_rectangles (Page None None) true float_5_0 float_5_0
  = Some (0, Page None None) ∧
  _remove_black_rectangles (Page None (Some scenario_C)) false float_5_0 float_5_0
  = Some (0, Page None (Some scenario_C)).
Proof.
  split.
  - apply (C7_nothing_to_remove (Page None None) true float_5_0 float_5_0).
    reflexivity.
  - apply (C7_nothing_to_remove (Page None (Some scenario_C)) false
             float_5_0 float_5_0) with (ops := scenario_C); reflexivity.
Defined.

(** The loop body raises only in the conversions of [g] and [rg]. *)
Lemma step_total aggressive min_width min_height idx op st :
  ¬ converts_operands op →
  is_Some (step aggressive min_width min_height idx op st).
Proof.
  unfold converts_operands. destruct op as [operands operator]; simpl.
  intros Hop. unfold step.
  repeat case_bool_decide; try (exfalso; tauto); try done.
  - by destruct (color_stack st).
  - by destruct (rect_operands operands).
  - destruct (path_indices st); [done|].
    by destruct (should_remove _ _ _ _).
Qed.

Lemma scan_from_total aggressive min_width min_height ops :
  Forall (λ op, ¬ converts_operands op) ops →
  ∀ idx st, is_Some (scan_from aggressive min_width min_height idx ops st).
Proof.
  induction 1 as [|op ops Hop _ IH]; intros idx st; simpl; [done|].
  destruct (step_total aggressive min_width min_height idx op st Hop) as [st' ->].
  simpl. apply IH.
Qed.

(** C8: a restore met with an empty colour stack does not raise: it gives
    a state whose fill colour is black, (0.0, 0.0, 0.0), whatever the
    colour was, whose stack is still empty and whose other variables are
    as they were.  No operator other than [g] and [rg] ever raises, so the
    scan of any sequence of saves and restores, balanced or not, runs to
    its end.  With three restores and no save the stack does run empty.
    In [Q 1 g Q re f] the first restore empties the stack, [1 g] makes the
    fill colour white and the second restore makes it black again: the
    square is removed, and it is not when the second restore is left
    out. *)
Theorem C8_restore_on_empty_stack :
  (∀ aggressive min_width min_height idx operands st,
     color_stack st = [] →
     ∃ st',
       step aggressive min_width min_height idx (Op operands "Q") st = Some st' ∧
       fill_color st' = (float_0_0, float_0_0, float_0_0) ∧
       color_stack st' = [] ∧
       remove_indices st' = remove_indices st ∧
       path_indices st' = path_indices st ∧
       path_rects st' = path_rects st ∧
       path_has_non_rect st' = path_has_non_rect st) ∧
  (∀ aggressive min_width min_height ops idx st,
     Forall (λ op, operator op = "q" ∨ operator op = "Q") ops →
     is_Some (scan_from aggressive min_width min_height idx ops st)) ∧
  (∀ aggressive min_width min_height ops idx st,
     Forall (λ op, ¬ converts_operands op) ops →
     is_Some (scan_from aggressive min_width min_height idx ops st)) ∧
  (color_stack <$> scan_from true float_5_0 float_5_0 0 (take 2 unbalanced_restores)
                     init_state) = Some [] ∧
  scan true float_5_0 float_5_0 unbalanced_restores = Some {[3; 4]} ∧
  (color_stack <$> scan_from true float_5_0 float_5_0 0 (take 2 restore_after_white)
                     init_state) = Some [] ∧
  (fill_color <$> scan_from true float_5_0 float_5_0 0 (take 2 restore_after_white)
                    init_state) = Some (float_1, float_1, float_1) ∧
  (fill_color <$> scan_from true float_5_0 float_5_0 0 (take 3 restore_after_white)
                    init_state) = Some (float_0_0, float_0_0, float_0_0) ∧
  scan true float_5_0 float_5_0 restore_after_white = Some {[3; 4]} ∧
  scan true float_5_0 float_5_0 white_without_restore = Some ∅.
Proof.
  split; [|split; [|split]].
  - intros aggressive min_width min_height idx operands st Hst.
    exists (set_color st black []). unfold step. simpl. rewrite Hst.
    by repeat split.
  - intros aggressive min_width min_height ops idx st Hops.
    apply scan_from_total. eapply Forall_impl; [|exact Hops]. simpl.
    intros op Hop [Hg | Hg]; destruct Hop as [Hq | Hq];
      rewrite Hq in Hg; discriminate.
  - intros aggressive min_width min_height ops idx st Hops.
    by apply scan_from_total.
  - repeat split; reflexivity.
Qed.

(** One turn of the loop keeps the two scans in step. *)
Lemma step_mode_sim min_width min_height idx op c a :
  mode_sim c a →
  match step false min_width min_height idx op c,
        step true min_width min_height idx op a with
  | Some c', Some a' => mode_sim c' a'
  | None, None => True
  | _, _ => False
  end.
Proof.
  destruct c as [rc pic prc nrc fc sc], a as [ra pia pra nra fa sa].
  intros (Hpi & Hpr & Hnr & Hf & Hs & Hr); simpl in *; subst.
  destruct op as [operands operator]. unfold step; simpl.
  repeat case_bool_decide.
  - done.
  - by destruct sa.
  - by destruct (float_operand operands 0).
  - destruct (float_operand operands 0); [|done].
    destruct (float_operand operands 1); [|done].
    by destruct (float_operand operands 2).
  - by destruct (rect_operands operands).
  - done.
  - destruct pia as [|i pia]; [done|].
    unfold should_remove; simpl.
    destruct (negb nra && _is_black_color (Some (rgb_obj fa)) float_0_02);
      [|done].
    destruct (any_large min_width min_height pra);
      repeat split; simpl; set_solver.
  - done.
  - done.
Qed.

Lemma scan_from_mode_sim min_width min_height ops :
  ∀ idx c a,
    mode_sim c a →
    match scan_from false min_width min_height idx ops c,
          scan_from true min_width min_height idx ops a with
    | Some c', Some a' => mode_sim c' a'
    | None, None => True
    | _, _ => False
    end.
Proof.
  induction ops as [|op ops IH]; intros idx c a Hsim; simpl; [done|].
  pose proof (step_mode_sim min_width min_height idx op c a Hsim) as Hstep.
  destruct (step false min_width min_height idx op c) as [c'|],
           (step true min_width min_height idx op a) as [a'|]; simpl; try done.
  by apply IH.
Qed.

(** C3: for any operations and thresholds the two modes raise on the same
    inputs, and when they do not, every index the conservative scan marks
    for removal is marked by the aggressive scan. *)
Theorem C3_aggressive_superset (min_width min_height : pyfloat) (ops : list operation) :
  match scan false min_width min_height ops,
        scan true min_width min_height ops with
  | Some conservative, Some aggressive => conservative ⊆ aggressive
  | None, None => True
  | _, _ => False
  end.
Proof.
  unfold scan.
  assert (mode_sim init_state init_state) as Hinit by (by repeat split).
  pose proof (scan_from_mode_sim min_width min_height ops 0 _ _ Hinit) as H.
  destruct (scan_from false min_width min_height 0 ops init_state) as [c|],
           (scan_from true min_width min_height 0 ops init_state) as [a|];
    simpl; try done.
  by destruct H as (_ & _ & _ & _ & _ & H).
Qed.

(** *** Paths with a segment that is not a rectangle *)

Lemma non_rect_not_end s : s ∈ non_rect_ops → ¬ (s ∈ paint_ops ∨ s ∈ end_path_ops).
Proof.
  intros H. split_elem_of H; intros [H | H]; absurd_elem_of H.
Qed.

Lemma paint_not_segment op : is_paint op → ¬ non_rect_segment op.
Proof.
  unfold is_paint, non_rect_segment. destruct op as [operands operator]; simpl.
  intros H. split_elem_of H; intros [H | [H _]]; try discriminate;
    absurd_elem_of H.
Qed.

(** The effect of one turn of the loop on the path and on the indices
    marked: either the operator ends the path, and marks it or not, or it
    does not and at most adds its index to the path. *)
Lemma step_path aggressive min_width min_height idx op st st' :
  step aggressive min_width min_height idx op st = Some st' →
  (ends_path op ∧ path_indices st' = [] ∧ path_has_non_rect st' = false ∧
   (remove_indices st' = remove_indices st
    ∨ (is_paint op ∧ path_has_non_rect st = false ∧
       remove_indices st'
       = remove_indices st ∪ list_to_set (path_indices st) ∪ {[idx]})))
  ∨ (¬ ends_path op ∧ remove_indices st' = remove_indices st ∧
     (path_indices st' = path_indices st
      ∨ path_indices st' = path_indices st ++ [idx]) ∧
     (non_rect_segment op → path_has_non_rect st' = true) ∧
     (path_has_non_rect st = true → path_has_non_rect st' = true)).
Proof.
  destruct op as [operands operator].
  unfold step, ends_path, is_paint, non_rect_segment; simpl.
  repeat case_bool_decide; subst.
  - intros [= <-]. right. simpl. repeat split; auto.
    + intros [Hx | Hx]; absurd_elem_of Hx.
    + intros [Hx | [Hx _]]; [|done]. absurd_elem_of Hx.
  - intros Hst. right.
    assert (remove_indices st' = remove_indices st ∧
            path_indices st' = path_indices st ∧
            path_has_non_rect st' = path_has_non_rect st) as (-> & -> & ->).
    { destruct (color_stack st); by injection Hst as <-. }
    repeat split; auto.
    + intros [Hx | Hx]; absurd_elem_of Hx.
    + intros [Hx | [Hx _]]; [|done]. absurd_elem_of Hx.
  - destruct (float_operand operands 0); [|done]. intros [= <-]. right. simpl.
    repeat split; auto.
    + intros [Hx | Hx]; absurd_elem_of Hx.
    + intros [Hx | [Hx _]]; [|done]. absurd_elem_of Hx.
  - destruct (float_operand operands 0); [|done].
    destruct (float_operand operands 1); [|done].
    destruct (float_operand operands 2); [|done]. intros [= <-]. right. simpl.
    repeat split; auto.
    + intros [Hx | Hx]; absurd_elem_of Hx.
    + intros [Hx | [Hx _]]; [|done]. absurd_elem_of Hx.
  - intros Hst. right. split.
    { intros [Hx | Hx]; absurd_elem_of Hx. }
    destruct (rect_operands operands) eqn:Hrect; injection Hst as <-; simpl;
      repeat split; auto.
    intros [Hx | [_ Hx]]; [|done]. absurd_elem_of Hx.
  - intros [= <-]. right. simpl. repeat split; auto.
    by apply non_rect_not_end.
  - intros Hst. left. split; [by left|].
    destruct (path_indices st) as [|i l] eqn:Hpath.
    { injection Hst as <-. simpl. auto. }
    destruct (should_remove aggressive min_width min_height st) eqn:Hrm;
      injection Hst as <-; simpl; [|auto].
    repeat split; auto. right. repeat split; auto.
    unfold should_remove in Hrm.
    by destruct (path_has_non_rect st).
  - intros [= <-]. left. simpl. auto.
  - intros [= <-]. right. repeat split; auto; tauto.
Qed.

Lemma open_from_app_l pre suf k j :
  j ≤ length pre → open_from (pre ++ suf) k j ↔ open_from pre k j.
Proof.
  intros Hj. unfold open_from.
  split; intros [Hkj Hopen]; (split; [done|]); intros m op Hm Hlook;
    apply (Hopen m op Hm).
  - rewrite lookup_app_l by lia. done.
  - rewrite lookup_app_l in Hlook by lia. done.
Qed.

(** Scanning one more operation extends an open stretch when the operation
    does not end the path. *)
Lemma open_from_snoc pre op k :
  ¬ ends_path op → k ≤ length pre →
  open_from pre k (length pre) → open_from (pre ++ [op]) k (length (pre ++ [op])).
Proof.
  intros Hop Hk [_ Hopen]. rewrite length_app. simpl. split; [lia|].
  intros m op' Hm Hlook.
  destruct (decide (m = length pre)) as [-> | Hne].
  - rewrite list_lookup_middle in Hlook by done. by injection Hlook as <-.
  - rewrite lookup_app_l in Hlook by lia. apply (Hopen m op'); [lia | done].
Qed.

(** After an operation that ends the path no stretch is open. *)
Lemma open_from_snoc_ended pre op k :
  ends_path op → ¬ open_from (pre ++ [op]) k (length (pre ++ [op])) ∨ length pre < k.
Proof.
  intros Hop. destruct (decide (k ≤ length pre)) as [Hk | Hk]; [left | right; lia].
  intros [_ Hopen]. apply (Hopen (length pre) op); [|by apply list_lookup_middle|done].
  rewrite length_app. simpl. lia.
Qed.

Lemma open_from_snoc_inv pre op k :
  k < length pre →
  open_from (pre ++ [op]) k (length (pre ++ [op])) → open_from pre k (length pre).
Proof.
  intros Hk [_ Hopen]. split; [lia|]. intros m op' Hm Hlook.
  apply (Hopen m op').
  - rewrite length_app. simpl. lia.
  - rewrite lookup_app_l by lia. done.
Qed.

(** What is known of an index marked stays true when more is scanned. *)
Lemma inv_removed_snoc pre op k :
  (∃ j opj, pre !! j = Some opj ∧ is_paint opj ∧ open_from pre k j ∧
     ∀ i opi, open_from pre i j → pre !! i = Some opi → ¬ non_rect_segment opi) →
  ∃ j opj, (pre ++ [op]) !! j = Some opj ∧ is_paint opj ∧
     open_from (pre ++ [op]) k j ∧
     ∀ i opi, open_from (pre ++ [op]) i j → (pre ++ [op]) !! i = Some opi →
              ¬ non_rect_segment opi.
Proof.
  intros (j & opj & Hj & Hpaint & Hopen & Hclean).
  pose proof (lookup_lt_Some _ _ _ Hj) as Hlt.
  exists j, opj. split; [by apply lookup_app_l_Some|]. split; [done|].
  split; [by rewrite open_from_app_l by lia|].
  intros i opi Hi Hlook. rewrite open_from_app_l in Hi by lia.
  apply (Hclean i opi Hi). destruct Hi as [Hij _].
  rewrite lookup_app_l in Hlook by lia. done.
Qed.

Lemma scan_inv_init : scan_inv [] init_state.
Proof.
  split; simpl.
  - intros k Hk. by apply elem_of_nil in Hk.
  - intros k op Hk. done.
  - intros k Hk. by apply not_elem_of_empty in Hk.
Qed.

(** The invariant is kept by one turn of the loop. *)
Lemma scan_inv_step aggressive min_width min_height pre op st st' :
  scan_inv pre st →
  step aggressive min_width min_height (length pre) op st = Some st' →
  scan_inv (pre ++ [op]) st'.
Proof.
  intros [Hpath Hflag Hrem] Hstep.
  apply step_path in Hstep
    as [(Hend & Hpath' & Hflag' & Hrem') | (Hend & Hrem' & Hpath' & Hseg & Hmono)].
  - (* the operator ends the path *)
    split.
    + intros k Hk. rewrite Hpath' in Hk. by apply elem_of_nil in Hk.
    + intros k opk Hlook _ Hopen. exfalso.
      pose proof (lookup_lt_Some _ _ _ Hlook) as Hlt.
      rewrite length_app in Hlt; simpl in Hlt.
      destruct (open_from_snoc_ended pre op k Hend) as [Hno | Hgt]; [done | lia].
    + intros k Hk. destruct Hrem' as [Heq | (Hpaint & Hnr & Heq)]; rewrite Heq in Hk.
      { apply inv_removed_snoc. by apply Hrem. }
      apply elem_of_union in Hk as [Hk | Hk].
      apply elem_of_union in Hk as [Hk | Hk].
      { apply inv_removed_snoc. by apply Hrem. }
      * (* an index of the path just painted *)
        apply elem_of_list_to_set in Hk. destruct (Hpath k Hk) as [Hlt Hopen].
        exists (length pre), op.
        split; [by apply list_lookup_middle|]. split; [done|].
        split; [by rewrite open_from_app_l by done|].
        intros i opi Hi Hlook Hsegi. rewrite open_from_app_l in Hi by done.
        destruct (decide (i = length pre)) as [-> | Hne].
        -- rewrite list_lookup_middle in Hlook by done. injection Hlook as <-.
           by apply (paint_not_segment op).
        -- destruct Hi as [Hile Hi]. rewrite lookup_app_l in Hlook by lia.
           rewrite (Hflag i opi Hlook Hsegi) in Hnr; [done|]. by split.
      * (* the paint operator itself *)
        apply elem_of_singleton in Hk as ->.
        exists (length pre), op.
        split; [by apply list_lookup_middle|]. split; [done|].
        split; [split; [done|]; intros m opm Hm; lia|].
        intros i opi Hi Hlook Hsegi. rewrite open_from_app_l in Hi by done.
        destruct (decide (i = length pre)) as [-> | Hne].
        -- rewrite list_lookup_middle in Hlook by done. injection Hlook as <-.
           by apply (paint_not_segment op).
        -- destruct Hi as [Hile Hi]. rewrite lookup_app_l in Hlook by lia.
           rewrite (Hflag i opi Hlook Hsegi) in Hnr; [done|]. by split.
  - (* the operator does not end the path *)
    split.
    + intros k Hk.
      assert (k ∈ path_indices st ∨ k = length pre) as [Hold | ->].
      { destruct Hpath' as [Heq | Heq]; rewrite Heq in Hk; [by left|].
        apply elem_of_app in Hk as [Hk | Hk]; [by left|].
        right. by apply list_elem_of_singleton in Hk. }
      * destruct (Hpath k Hold) as [Hlt Hopen]. split.
        -- rewrite length_app. simpl. lia.
        -- apply open_from_snoc; [done | lia | done].
      * split.
        -- rewrite length_app. simpl. lia.
        -- apply open_from_snoc; [done | lia |]. split; [done|]. intros m opm Hm. lia.
    + intros k opk Hlook Hsegk Hopen.
      pose proof (lookup_lt_Some _ _ _ Hlook) as Hlt.
      rewrite length_app in Hlt; simpl in Hlt.
      destruct (decide (k = length pre)) as [-> | Hne].
      * rewrite list_lookup_middle in Hlook by done. injection Hlook as <-.
        by apply Hseg.
      * apply Hmono. rewrite lookup_app_l in Hlook by lia.
        apply (Hflag k opk Hlook Hsegk). apply (open_from_snoc_inv pre op); [lia | done].
    + intros k Hk. rewrite Hrem' in Hk. apply inv_removed_snoc. by apply Hrem.
Qed.

Lemma scan_inv_scan_from aggressive min_width min_height ops :
  ∀ pre st st',
    scan_inv pre st →
    scan_from aggressive min_width min_height (length pre) ops st = Some st' →
    scan_inv (pre ++ ops) st'.
Proof.
  induction ops as [|op ops IH]; intros pre st st' Hinv; simpl.
  - intros [= <-]. by rewrite app_nil_r.
  - destruct (step aggressive min_width min_height (length pre) op st)
      as [st1|] eqn:Hstep; [|done]. simpl. intros Hscan.
    replace (pre ++ op :: ops) with ((pre ++ [op]) ++ ops)
      by (by rewrite <- app_assoc).
    apply (IH (pre ++ [op]) st1 st').
    + by apply (scan_inv_step aggressive min_width min_height pre op st).
    + rewrite length_app. simpl. by rewrite Nat.add_1_r.
Qed.

(** C6: in both modes and for all thresholds, when the scan of a stream ends
    with the set [removed], no segment that is not a rectangle (one of
    [m l c v y h], or an [re] whose operands fail the conversion) is in
    [removed]; and when such a segment belongs to the path that a paint
    operator paints, neither that paint operator nor any operation of that
    path is in [removed], whatever the fill colour and the rectangles of the
    path. *)
Theorem C6_non_rect_path_never_removed (aggressive : bool)
    (min_width min_height : pyfloat) (ops : list operation) (removed : gset nat) :
  scan aggressive min_width min_height ops = Some removed →
  (∀ i op, ops !! i = Some op → non_rect_segment op → i ∉ removed) ∧
  (∀ i j opi opj,
     ops !! i = Some opi → non_rect_segment opi →
     ops !! j = Some opj → is_paint opj →
     open_from ops i j →
     ∀ k, open_from ops k j → k ∉ removed).
Proof.
  unfold scan. intros Hscan.
  destruct (scan_from aggressive min_width min_height 0 ops init_state)
    as [st|] eqn:Hst; [|done].
  injection Hscan as <-.
  pose proof (scan_inv_scan_from aggressive min_width min_height ops [] _ _
                scan_inv_init Hst) as [_ _ Hrem]. simpl in Hrem.
  split.
  - intros i op Hi Hseg Hin.
    destruct (Hrem i Hin) as (j & opj & _ & _ & Hopen & Hclean).
    by apply (Hclean i op).
  - intros i j opi opj Hi Hseg Hj Hpaint Hij k Hkj Hin.
    destruct (Hrem k Hin) as (j' & opj' & Hj' & Hpaint' & Hkj' & Hclean).
    assert (j' = j) as ->.
    { destruct Hkj as [Hle Hopen], Hkj' as [Hle' Hopen'].
      destruct (lt_eq_lt_dec j' j) as [[Hlt | Heq] | Hgt]; [|done|].
      - exfalso. apply (Hopen j' opj'); [lia | done | by left].
      - exfalso. apply (Hopen' j opj); [lia | done | by left]. }
    by apply (Hclean i opi).
Qed.

(** C6 at a stream of three paths, of which the aggressive scan marks the
    first only, indices 0 and 1. *)
Lemma C6_non_rect_path_never_removed_witness :
  (∀ i op, mixed_paths !! i = Some op → non_rect_segment op →
           i ∉ ({[0; 1]} : gset nat)) ∧
  (∀ i j opi opj,
     mixed_paths !! i = Some opi → non_rect_segment opi →
     mixed_paths !! j = Some opj → is_paint opj →
     open_from mixed_paths i j →
     ∀ k, open_from mixed_paths k j → k ∉ ({[0; 1]} : gset nat)).
Proof.
  apply (C6_non_rect_path_never_removed true float_5_0 float_5_0 mixed_paths).
  reflexivity.
Defined.

(** Scenarios B and C: in conservative mode with thresholds 5 and 5 the
    rectangle of 100 by 50 is removed, the one of 2 by 2 is not; the
    aggressive scan removes both. *)
Example scenarios_B_C :
  scan false float_5_0 float_5_0 scenario_A = Some {[2; 3]} ∧
  scan false float_5_0 float_5_0 scenario_C = Some ∅ ∧
  scan true float_5_0 float_5_0 scenario_C = Some {[2; 3]}.
Proof. repeat split; vm_compute; reflexivity. Qed.

(** * Further properties *)

(** ** The annotation pass, continued *)

Lemma length_filter_split {A} (f : A → bool) (l : list A) :
  length (filter (λ x, f x = false) l) + length (filter (λ x, f x = true) l)
  = length l.
Proof.
  induction l as [|x l IH]; [done|].
  rewrite !filter_cons. destruct (f x) eqn:Hf; simpl.
  - rewrite <- IH. lia.
  - rewrite <- IH. lia.
Qed.

(** The list a page ends with, and the count, in terms of the list it
    starts with. *)
Lemma remove_redaction_annots_list p aggressive :
  page_annots (_remove_redaction_annots p aggressive).2
  = kept_annots aggressive (page_annots p)
  ∧ (_remove_redaction_annots p aggressive).1
    = removed_count aggressive (page_annots p).
Proof.
  rewrite remove_redaction_annots_spec. unfold page_annots, annots.
  destruct (raw_annots p) as [v|] eqn:Hp; simpl; [|by rewrite Hp].
  destruct (annots_truthy v) eqn:Hv; simpl.
  - by destruct (kept_annots aggressive (get_object v)).
  - rewrite Hp. by destruct v as [[|a l]|l].
Qed.

Lemma remove_redaction_annots_length p aggressive :
  length (page_annots p)
  = (_remove_redaction_annots p aggressive).1
    + length (page_annots (_remove_redaction_annots p aggressive).2).
Proof.
  destruct (remove_redaction_annots_list p aggressive) as [-> ->].
  unfold kept_annots, removed_count.
  rewrite <- (length_filter_split (annot_removed aggressive) (page_annots p)). lia.
Qed.

(** X1: the count returned is the number of annotations that left the
    page: the annotations before are as many as the count and the
    annotations after together. *)
Theorem X1_annots_count_conservation (p : page) (aggressive : bool) :
  length (page_annots p)
  = (_remove_redaction_annots p aggressive).1
    + length (page_annots (_remove_redaction_annots p aggressive).2).
Proof. apply remove_redaction_annots_length. Qed.

Lemma annot_removed_redact aggressive a :
  is_redact a = true → annot_removed aggressive a = true.
Proof. unfold annot_removed. by intros ->. Qed.

(** X2: in both modes no redaction marker is left on the page. *)
Theorem X2_no_redact_survives (p : page) (aggressive : bool) :
  Forall (λ a, is_redact a = false)
         (page_annots (_remove_redaction_annots p aggressive).2).
Proof.
  destruct (remove_redaction_annots_list p aggressive) as [-> _].
  apply list.Forall_forall. intros a [_ Hkept]%elem_of_kept_annots.
  destruct (is_redact a) eqn:Hr; [|done].
  by rewrite (annot_removed_redact aggressive a Hr) in Hkept.
Qed.

(** X3: the conservative pass removes the redaction markers and nothing
    else: what is left is the list without its markers, and the count is
    the number of markers. *)
Theorem X3_conservative_removes_markers_only (p : page) :
  page_annots (_remove_redaction_annots p false).2
  = filter (λ a, is_redact a = false) (page_annots p)
  ∧ (_remove_redaction_annots p false).1
    = length (filter (λ a, is_redact a = true) (page_annots p)).
Proof.
  destruct (remove_redaction_annots_list p false) as [-> ->].
  unfold kept_annots, removed_count.
  assert (∀ a, annot_removed false a = is_redact a) as Heq.
  { intros a. unfold annot_removed. by destruct (is_redact a). }
  split; [apply list_filter_iff | f_equal; apply list_filter_iff];
    intros a; by rewrite Heq.
Qed.

Lemma annot_removed_mono a :
  annot_removed false a = true → annot_removed true a = true.
Proof. unfold annot_removed. by destruct (is_redact a). Qed.

(** X4: the aggressive pass removes at least what the conservative pass
    removes: the list it leaves is a sublist of the list the conservative
    pass leaves, and its count is at least as large. *)
Theorem X4_annots_aggressive_superset (p : page) :
  page_annots (_remove_redaction_annots p true).2
    `sublist_of` page_annots (_remove_redaction_annots p false).2
  ∧ (_remove_redaction_annots p false).1 ≤ (_remove_redaction_annots p true).1.
Proof.
  destruct (remove_redaction_annots_list p false) as [-> ->].
  destruct (remove_redaction_annots_list p true) as [-> ->].
  unfold kept_annots, removed_count.
  induction (page_annots p) as [|a l [IH1 IH2]]; [done|].
  rewrite !filter_cons.
  pose proof (annot_removed_mono a) as Hmono.
  destruct (annot_removed false a) eqn:Hf, (annot_removed true a) eqn:Ht;
    simpl; try (specialize (Hmono eq_refl); done).
  - split; [done | lia].
  - split; [by apply sublist_cons | lia].
  - split; [by apply sublist_skip | done].
Qed.

Lemma py_all_true {A} (p : A → option bool) (l : list A) :
  py_all p l = Some true ↔ Forall (λ x, p x = Some true) l.
Proof.
  induction l as [|x l IH]; simpl.
  - split; [by constructor | done].
  - destruct (p x) as [[|]|] eqn:Hp.
    + rewrite IH. split; [by constructor | by inversion 1].
    + split; [done | inversion 1; congruence].
    + split; [done | inversion 1; congruence].
Qed.

Lemma py_all_bool {A} (p : A → option bool) (l : list A) :
  match py_all p l with Some b => b | None => false end = true
  ↔ Forall (λ x, p x = Some true) l.
Proof.
  rewrite <- py_all_true. destruct (py_all p l) as [[|]|]; split; congruence.
Qed.

Lemma is_black_iff (color : option pyobj) :
  _is_black color = true
  ↔ ∃ items, color ≫= py_iter = Some items
             ∧ Forall (λ c, py_float c = Some float_0_0) items.
Proof.
  assert (∀ c, (x ← py_float c; Some (float_eq x float_0_0)) = Some true
               ↔ py_float c = Some float_0_0) as Hzero.
  { intros c. destruct (py_float c) as [x|]; simpl; [|done].
    unfold float_0_0. destruct x as [x| | |]; simpl; try (split; congruence).
    case_bool_decide; split; congruence. }
  unfold _is_black. destruct color as [c|]; simpl.
  - destruct (py_iter c) as [items|]; simpl.
    + rewrite py_all_bool. split.
      * intros H. exists items. split; [done|].
        eapply Forall_impl; [|exact H]. intros x. apply Hzero.
      * intros (items' & [= <-] & H).
        eapply Forall_impl; [|exact H]. intros x. apply Hzero.
    + split; [done | by intros (? & ? & _)].
  - split; [done | by intros (? & ? & _)].
Qed.

(** X5: an annotation looks like a black box exactly when its subtype is
    one of the five, the entry [/IC or /C] is there, can be iterated and
    every item converts to zero, and the opacity, when it converts, is not
    below 0.9 in the sense of [<]: it is at least 0.9, or it is NaN.  An
    opacity that does not convert, an integer beyond the range of floats
    included, does not stand in the way.  So a colour that is absent, is a
    number, or has an item that does not convert or is not zero, makes the
    answer no. *)
Theorem X5_looks_like_black_box_iff (a : annot) :
  _looks_like_black_box a = true
  ↔ subtype_in (a !! "/Subtype") black_box_subtypes = true
    ∧ (∃ items, color_items a = Some items
                ∧ Forall (λ c, py_float c = Some float_0_0) items)
    ∧ (∀ x, py_float (get_opacity a) = Some x → float_lt x float_0_9 = false).
Proof.
  unfold _looks_like_black_box, color_items.
  rewrite <- is_black_iff.
  destruct (subtype_in (a !! "/Subtype") black_box_subtypes); simpl;
    [|split; [done | by intros [? _]]].
  destruct (_is_black (py_or (a !! "/IC") (a !! "/C"))); simpl;
    [|split; [done | by intros (_ & ? & _)]].
  destruct (py_float (get_opacity a)) as [x|]; [|by repeat split].
  destruct (float_lt x float_0_9) eqn:Hlt.
  - split; [done|]. intros (_ & _ & Hle). specialize (Hle x eq_refl).
    congruence.
  - split; [|done]. intros _. repeat split. by intros y [= <-].
Qed.

(** An opacity that is NaN, or an integer too large for a float, does not
    exclude the annotation; minus infinity and zero do. *)
Example opacity_edge_cases :
  _looks_like_black_box (black_square (PyFloat NaN)) = true ∧
  _looks_like_black_box (black_square (PyInt (- 10 ^ 400))) = true ∧
  _looks_like_black_box (black_square (PyFloat NInf)) = false ∧
  _looks_like_black_box (black_square (PyInt 0)) = false.
Proof. repeat split; vm_compute; reflexivity. Qed.

(** X6: the opacity is read from [/CA] when that key is present; [/ca] is
    then not consulted, whatever it holds. *)
Theorem X6_CA_before_ca (a : annot) (v w : pyobj) :
  get_opacity (<["/ca" := w]> (<["/CA" := v]> a)) = v
  ∧ _looks_like_black_box (<["/ca" := w]> (<["/CA" := v]> a))
    = _looks_like_black_box (<["/CA" := v]> a).
Proof.
  assert (get_opacity (<["/ca" := w]> (<["/CA" := v]> a)) = v) as Hop.
  { unfold get_opacity. rewrite (lookup_insert_ne _ "/ca" "/CA") by done.
    by rewrite !lookup_insert_eq. }
  split; [done|].
  unfold _looks_like_black_box. rewrite Hop.
  rewrite (lookup_insert_ne _ "/ca" "/Subtype") by done.
  rewrite (lookup_insert_ne _ "/ca" "/IC") by done.
  rewrite (lookup_insert_ne _ "/ca" "/C") by done.
  unfold get_opacity. by rewrite !lookup_insert_eq.
Qed.

(** X7: the colour tested is [/IC] when that entry is true in Python's
    sense, and then [/C] is not consulted; an [/IC] that is false (the
    number zero, an empty array) counts as absent and [/C] is tested. *)
Theorem X7_IC_before_C (a : annot) (v w : pyobj) :
  (py_truthy v = true →
   _looks_like_black_box (<["/C" := w]> (<["/IC" := v]> a))
   = _looks_like_black_box (<["/IC" := v]> a))
  ∧ (py_truthy v = false →
     _looks_like_black_box (<["/IC" := v]> a)
     = _looks_like_black_box (delete "/IC" a)).
Proof.
  split; intros Hv; unfold _looks_like_black_box, get_opacity, py_or.
  - rewrite (lookup_insert_ne _ "/C" "/Subtype") by done.
    rewrite (lookup_insert_ne _ "/C" "/IC") by done.
    rewrite (lookup_insert_ne _ "/C" "/CA") by done.
    rewrite (lookup_insert_ne _ "/C" "/ca") by done.
    rewrite !lookup_insert_eq. simpl. by rewrite Hv.
  - rewrite (lookup_insert_ne _ "/IC" "/Subtype") by done.
    rewrite (lookup_insert_ne _ "/IC" "/C") by done.
    rewrite (lookup_insert_ne _ "/IC" "/CA") by done.
    rewrite (lookup_insert_ne _ "/IC" "/ca") by done.
    rewrite (lookup_delete_ne _ "/IC" "/Subtype") by done.
    rewrite (lookup_delete_ne _ "/IC" "/C") by done.
    rewrite (lookup_delete_ne _ "/IC" "/CA") by done.
    rewrite (lookup_delete_ne _ "/IC" "/ca") by done.
    rewrite lookup_insert_eq, lookup_delete_eq. simpl. by rewrite Hv.
Qed.


(** ** The content-stream pass, continued *)

(** *** The loop body, operator by operator *)

Lemma op_cases op :
  plain_op op ∨ operator op = "re" ∨ operator op ∈ non_rect_ops
  ∨ operator op ∈ paint_ops ∨ operator op ∈ end_path_ops.
Proof.
  unfold plain_op.
  destruct (decide (operator op = "re")); [tauto|].
  destruct (decide (operator op ∈ non_rect_ops)); [tauto|].
  destruct (decide (operator op ∈ paint_ops)); [tauto|].
  destruct (decide (operator op ∈ end_path_ops)); tauto.
Qed.

Lemma step_plain aggressive min_width min_height idx op st :
  plain_op op →
  step aggressive min_width min_height idx op st
  = '(c, stack) ← color_step op (fill_color st) (color_stack st);
    Some (set_color st c stack).
Proof.
  intros (Hre & Hseg & Hpaint & Hend). destruct op as [operands operator].
  unfold step, color_step; simpl in *.
  repeat case_bool_decide; try done.
  - by destruct (color_stack st).
  - by destruct (float_operand operands 0).
  - destruct (float_operand operands 0); [|done]. simpl.
    destruct (float_operand operands 1); [|done]. simpl.
    by destruct (float_operand operands 2).
  - by destruct st.
Qed.

Lemma step_rect aggressive min_width min_height idx op st :
  operator op = "re" →
  step aggressive min_width min_height idx op st
  = Some match rect_operands (operands op) with
         | Some wh => set_path st (path_indices st ++ [idx])
                        (path_rects st ++ [wh]) (path_has_non_rect st)
         | None => set_path st (path_indices st ++ [idx]) (path_rects st) true
         end.
Proof.
  destruct op as [operands operator]; simpl. intros ->.
  unfold step; simpl. by destruct (rect_operands operands).
Qed.

Lemma step_segment aggressive min_width min_height idx op st :
  operator op ∈ non_rect_ops →
  step aggressive min_width min_height idx op st
  = Some (set_path st (path_indices st ++ [idx]) (path_rects st) true).
Proof.
  destruct op as [operands operator]; simpl. intros H.
  split_elem_of H; reflexivity.
Qed.

Lemma step_paint aggressive min_width min_height idx op st :
  operator op ∈ paint_ops →
  step aggressive min_width min_height idx op st
  = Some match path_indices st with
         | [] => reset_path st
         | _ =>
             if should_remove aggressive min_width min_height st
             then reset_path
                    (set_removed st
                       (remove_indices st ∪ list_to_set (path_indices st) ∪ {[idx]}))
             else reset_path st
         end.
Proof.
  destruct op as [operands operator]; simpl. intros H.
  split_elem_of H; unfold step; simpl; destruct (path_indices st); try done;
    by destruct (should_remove _ _ _ _).
Qed.

Lemma step_end aggressive min_width min_height idx op st :
  operator op ∈ end_path_ops →
  step aggressive min_width min_height idx op st = Some (reset_path st).
Proof.
  destruct op as [operands operator]; simpl. intros H.
  split_elem_of H; reflexivity.
Qed.

Lemma plain_not_paint op : plain_op op → ¬ is_paint op.
Proof. by intros (_ & _ & ? & _). Qed.

Lemma rect_not_paint op : operator op = "re" → ¬ is_paint op.
Proof. unfold is_paint. intros -> H. absurd_elem_of H. Qed.

(** *** The indices of the state *)

Lemma scan_wf_init : scan_wf 0 init_state.
Proof.
  split; simpl.
  - intros k Hk. by apply not_elem_of_empty in Hk.
  - intros k Hk. by apply elem_of_nil in Hk.
  - done.
Qed.

Lemma scan_wf_push idx st rects flag :
  scan_wf idx st →
  scan_wf (S idx) (set_path st (path_indices st ++ [idx]) rects flag).
Proof.
  intros [Hrem Hpath Hempty]. split; simpl.
  - intros k Hk. specialize (Hrem k Hk). lia.
  - intros k [Hk | Hk%list_elem_of_singleton]%elem_of_app.
    + destruct (Hpath k Hk). split; [lia | done].
    + subst k. split; [lia|]. intros Hk. specialize (Hrem idx Hk). lia.
  - intros Hnil. by apply app_eq_nil in Hnil as [_ ?].
Qed.

Lemma scan_wf_step aggressive min_width min_height idx op st st' :
  scan_wf idx st →
  step aggressive min_width min_height idx op st = Some st' →
  scan_wf (S idx) st'.
Proof.
  intros Hwf. pose proof Hwf as [Hrem Hpath Hempty].
  destruct (op_cases op) as [Hop | [Hop | [Hop | [Hop | Hop]]]].
  - rewrite step_plain by done.
    destruct (color_step op (fill_color st) (color_stack st)) as [[c stack]|];
      [|done]. simpl. intros [= <-]. split; simpl.
    + intros k Hk. specialize (Hrem k Hk). lia.
    + intros k Hk. destruct (Hpath k Hk). split; [lia | done].
    + done.
  - rewrite step_rect by done. intros [= <-].
    destruct (rect_operands (operands op)); by apply scan_wf_push.
  - rewrite step_segment by done. intros [= <-]. by apply scan_wf_push.
  - rewrite step_paint by done. intros [= <-].
    destruct (path_indices st) as [|i l] eqn:Hp.
    { split; simpl; [|by intros k Hk%elem_of_nil|done].
      intros k Hk. specialize (Hrem k Hk). lia. }
    destruct (should_remove aggressive min_width min_height st).
    + split; simpl; [|by intros k Hk%elem_of_nil|done].
      intros k Hk. set_unfold in Hk.
      destruct Hk as [[Hk | Hk] | ->]; [| |lia].
      * specialize (Hrem k Hk). lia.
      * apply elem_of_cons in Hk. destruct (Hpath k Hk). lia.
    + split; simpl; [|by intros k Hk%elem_of_nil|done].
      intros k Hk. specialize (Hrem k Hk). lia.
  - rewrite step_end by done. intros [= <-].
    split; simpl; [|by intros k Hk%elem_of_nil|done].
    intros k Hk. specialize (Hrem k Hk). lia.
Qed.

Lemma scan_wf_scan_from aggressive min_width min_height ops :
  ∀ idx st st',
    scan_wf idx st →
    scan_from aggressive min_width min_height idx ops st = Some st' →
    scan_wf (idx + length ops) st'.
Proof.
  induction ops as [|op ops IH]; intros idx st st' Hwf; simpl.
  - intros [= <-]. by rewrite Nat.add_0_r.
  - destruct (step aggressive min_width min_height idx op st) as [st1|] eqn:Hstep;
      [|done]. simpl. intros Hscan.
    replace (idx + S (length ops)) with (S idx + length ops) by lia.
    apply (IH (S idx) st1 st'); [|done].
    by apply (scan_wf_step aggressive min_width min_height idx op st).
Qed.

(** The indices that a scan marks are indices of the stream. *)
Lemma scan_in_range aggressive min_width min_height ops removed :
  scan aggressive min_width min_height ops = Some removed →
  ∀ k, k ∈ removed → k < length ops.
Proof.
  unfold scan. intros Hscan.
  destruct (scan_from aggressive min_width min_height 0 ops init_state)
    as [st|] eqn:Hst; [|done]. injection Hscan as <-.
  apply (scan_wf_scan_from _ _ _ _ _ _ _ scan_wf_init Hst).
Qed.

(** *** What is taken out of the stream *)

Lemma filter_ops_sublist idx (removed : gset nat) ops :
  filter_ops idx removed ops `sublist_of` ops.
Proof.
  revert idx. induction ops as [|op ops IH]; intros idx; simpl; [done|].
  case_bool_decide; [by apply sublist_cons | by apply sublist_skip].
Qed.

Lemma filter_ops_length idx (removed : gset nat) ops :
  length (filter_ops idx removed ops)
  + length (filter (λ k, k ∈ removed) (seq idx (length ops)))
  = length ops.
Proof.
  revert idx. induction ops as [|op ops IH]; intros idx; simpl; [done|].
  rewrite filter_cons. specialize (IH (S idx)).
  case_bool_decide; rewrite ?decide_True, ?decide_False by done; simpl; lia.
Qed.

Lemma size_below (removed : gset nat) n :
  (∀ k, k ∈ removed → k < n) →
  size removed = length (filter (λ k, k ∈ removed) (seq 0 n)).
Proof.
  intros Hlt.
  assert (removed = list_to_set (filter (λ k, k ∈ removed) (seq 0 n))) as Heq.
  { apply set_eq. intros k.
    rewrite elem_of_list_to_set, list_elem_of_filter, elem_of_seq.
    split; [|tauto]. intros Hk. specialize (Hlt k Hk). split; [done | lia]. }
  rewrite Heq at 1. apply size_list_to_set, list.NoDup_filter, NoDup_seq.
Qed.

Lemma remove_black_rectangles_output p aggressive min_width min_height ops n p' :
  contents p = Some ops →
  _remove_black_rectangles p aggressive min_width min_height = Some (n, p') →
  ∃ ops', contents p' = Some ops' ∧ ops' `sublist_of` ops
          ∧ length ops' + n = length ops.
Proof.
  unfold _remove_black_rectangles. intros Hops. rewrite Hops.
  destruct (scan aggressive min_width min_height ops) as [removed|] eqn:Hscan;
    [|done]. simpl.
  case_bool_decide as Hempty; intros [= <- <-].
  - exists ops. split; [done|]. split; [done | lia].
  - exists (filter_ops 0 removed ops). simpl.
    split; [done|]. split; [apply filter_ops_sublist|].
    rewrite (size_below removed (length ops)).
    + apply filter_ops_length.
    + by apply (scan_in_range aggressive min_width min_height).
Qed.

(** X8: the stream that the pass leaves is the stream it found with some
    operations taken out and nothing added or reordered, and the count
    returned is the number of operations taken out. *)
Theorem X8_output_is_input_minus_count (p : page) (aggressive : bool)
    (min_width min_height : pyfloat) (ops : list operation) (n : nat) (p' : page) :
  contents p = Some ops →
  _remove_black_rectangles p aggressive min_width min_height = Some (n, p') →
  ∃ ops', contents p' = Some ops' ∧ ops' `sublist_of` ops
          ∧ length ops' + n = length ops.
Proof. apply remove_black_rectangles_output. Qed.

(** X8 at Scenario A in aggressive mode. *)
Lemma X8_output_is_input_minus_count_witness :
  ∃ ops', contents (Page None (Some scenario_A_output)) = Some ops'
          ∧ ops' `sublist_of` scenario_A ∧ length ops' + 2 = length scenario_A.
Proof.
  apply (X8_output_is_input_minus_count (Page None (Some scenario_A)) true
           float_5_0 float_5_0 scenario_A 2 (Page None (Some scenario_A_output)));
    reflexivity.
Defined.

(** *** The operators that can be taken out *)

Lemma should_remove_flag aggressive min_width min_height st :
  should_remove aggressive min_width min_height st = true →
  path_has_non_rect st = false.
Proof. unfold should_remove. by destruct (path_has_non_rect st). Qed.

Lemma scan_kinds_init all : scan_kinds all init_state.
Proof.
  split; simpl.
  - intros _ k Hk. by apply elem_of_nil in Hk.
  - intros k Hk. by apply not_elem_of_empty in Hk.
  - intros k Hk. by apply not_elem_of_empty in Hk.
Qed.

Lemma scan_kinds_step aggressive min_width min_height all idx op st st' :
  all !! idx = Some op →
  scan_kinds all st →
  step aggressive min_width min_height idx op st = Some st' →
  scan_kinds all st'.
Proof.
  intros Hidx [Hpath Hrem Hpair].
  destruct (op_cases op) as [Hop | [Hop | [Hop | [Hop | Hop]]]].
  - rewrite step_plain by done.
    destruct (color_step op (fill_color st) (color_stack st)) as [[c stack]|];
      [|done]. simpl. intros [= <-]. by split.
  - rewrite step_rect by done. intros [= <-].
    destruct (rect_operands (operands op)) as [wh|] eqn:Hwh; split; simpl; try done.
    intros Hflag k [Hk | Hk%list_elem_of_singleton]%elem_of_app.
    + by apply Hpath.
    + subst k. exists op. split; [done|]. split; [done|]. by rewrite Hwh.
  - rewrite step_segment by done. intros [= <-]. by split.
  - rewrite step_paint by done. intros [= <-].
    destruct (path_indices st) as [|i l] eqn:Hp.
    { split; simpl; [by intros _ k Hk%elem_of_nil | done | done]. }
    destruct (should_remove aggressive min_width min_height st) eqn:Hrm;
      [|split; simpl; [by intros _ k Hk%elem_of_nil | done | done]].
    specialize (Hpath (should_remove_flag _ _ _ _ Hrm)).
    split; simpl; [by intros _ k Hk%elem_of_nil | |].
    + intros k Hk. set_unfold in Hk. destruct Hk as [[Hk | Hk] | ->].
      * by apply Hrem.
      * apply elem_of_cons in Hk. destruct (Hpath k Hk) as (opk & ? & ?).
        exists opk. auto.
      * exists op. auto.
    + intros k Hk.
      destruct (Hpath i) as (opi & Hi & Hgood); [by left|].
      exists i, idx, opi, op.
      split; [set_solver|]. split; [set_solver|].
      split; [done|]. split; [done|]. split; [done|]. exact Hop.
  - rewrite step_end by done. intros [= <-].
    split; simpl; [by intros _ k Hk%elem_of_nil | done | done].
Qed.

Lemma scan_kinds_scan_from aggressive min_width min_height all ops :
  ∀ idx st st',
    (∀ i op, ops !! i = Some op → all !! (idx + i) = Some op) →
    scan_kinds all st →
    scan_from aggressive min_width min_height idx ops st = Some st' →
    scan_kinds all st'.
Proof.
  induction ops as [|op ops IH]; intros idx st st' Hall Hkinds; simpl.
  - by intros [= <-].
  - destruct (step aggressive min_width min_height idx op st) as [st1|] eqn:Hstep;
      [|done]. simpl. apply (IH (S idx) st1 st').
    + intros i opi Hi. replace (S idx + i) with (idx + S i) by lia.
      by apply Hall.
    + apply (scan_kinds_step aggressive min_width min_height all idx op st);
        [|done|done]. rewrite <- (Nat.add_0_r idx). by apply Hall.
Qed.

Lemma scan_kinds_scan aggressive min_width min_height ops st :
  scan_from aggressive min_width min_height 0 ops init_state = Some st →
  scan_kinds ops st.
Proof.
  apply scan_kinds_scan_from; [done | apply scan_kinds_init].
Qed.

(** X9: whatever the mode and the thresholds, an operation is taken out
    only if it is a paint operator or an [re] whose four operands convert:
    every other operation of the stream is kept. *)
Theorem X9_only_rectangles_and_paints_removed (aggressive : bool)
    (min_width min_height : pyfloat) (ops : list operation) (removed : gset nat) :
  scan aggressive min_width min_height ops = Some removed →
  ∀ k, k ∈ removed → ∃ op, ops !! k = Some op ∧ (is_paint op ∨ good_rect op).
Proof.
  unfold scan. intros Hscan.
  destruct (scan_from aggressive min_width min_height 0 ops init_state)
    as [st|] eqn:Hst; [|done]. injection Hscan as <-.
  apply (scan_kinds_scan _ _ _ _ _ Hst).
Qed.

(** X9 on the stream of three paths, at the two indices marked. *)
Lemma X9_only_rectangles_and_paints_removed_witness :
  (∃ op, mixed_paths !! 0 = Some op ∧ (is_paint op ∨ good_rect op))
  ∧ (∃ op, mixed_paths !! 1 = Some op ∧ (is_paint op ∨ good_rect op)).
Proof.
  split;
    apply (X9_only_rectangles_and_paints_removed true float_5_0 float_5_0
             mixed_paths {[0; 1]} eq_refl); set_solver.
Defined.

(** X10: a stream that has no [re], or no paint operator, loses nothing:
    the pass returns 0 and the page as it is. *)
Theorem X10_no_rectangle_or_no_paint (p : page) (aggressive : bool)
    (min_width min_height : pyfloat) (ops : list operation) (n : nat) (p' : page) :
  contents p = Some ops →
  Forall (λ op, operator op ≠ "re") ops ∨ Forall (λ op, ¬ is_paint op) ops →
  _remove_black_rectangles p aggressive min_width min_height = Some (n, p') →
  n = 0 ∧ p' = p.
Proof.
  unfold _remove_black_rectangles, scan. intros -> Hnone.
  destruct (scan_from aggressive min_width min_height 0 ops init_state)
    as [st|] eqn:Hst; [|done]. simpl.
  assert (remove_indices st = ∅) as ->.
  { apply set_eq. intros k. split; [|by intros ?%not_elem_of_empty].
    intros Hk. exfalso.
    destruct (kinds_pair _ _ (scan_kinds_scan _ _ _ _ _ Hst) k Hk)
      as (i & j & opi & opj & _ & _ & Hi & [Hre _] & Hj & Hpaint).
    destruct Hnone as [Hnone | Hnone]; rewrite list.Forall_forall in Hnone.
    - apply (Hnone opi); [|done]. by apply list_elem_of_lookup_2 in Hi.
    - apply (Hnone opj); [|done]. by apply list_elem_of_lookup_2 in Hj. }
  rewrite bool_decide_eq_true_2 by done. by intros [= <- <-].
Qed.

(** X10 at the filled triangle, in aggressive mode. *)
Lemma X10_no_rectangle_or_no_paint_witness :
  0 = 0 ∧ Page None (Some filled_triangle) = Page None (Some filled_triangle).
Proof.
  apply (X10_no_rectangle_or_no_paint (Page None (Some filled_triangle)) true
           float_5_0 float_5_0 filled_triangle 0 (Page None (Some filled_triangle)));
    [reflexivity | | reflexivity].
  left. repeat constructor; discriminate.
Defined.

Lemma end_not_paint s : s ∈ end_path_ops → s ∉ paint_ops.
Proof. intros H. split_elem_of H; intros H; absurd_elem_of H. Qed.

(** X11: a path that is stroked, used for clipping or dropped, that is
    ended by one of [n W W* S s], is never taken out: neither that operator
    nor any operation since the path before it ended is marked. *)
Theorem X11_unpainted_path_never_removed (aggressive : bool)
    (min_width min_height : pyfloat) (ops : list operation) (removed : gset nat)
    (j : nat) (opj : operation) :
  scan aggressive min_width min_height ops = Some removed →
  ops !! j = Some opj → operator opj ∈ end_path_ops →
  ∀ k, open_from ops k j → k ∉ removed.
Proof.
  unfold scan. intros Hscan Hj Hend k Hkj Hin.
  destruct (scan_from aggressive min_width min_height 0 ops init_state)
    as [st|] eqn:Hst; [|done]. injection Hscan as <-.
  pose proof (scan_inv_scan_from aggressive min_width min_height ops [] _ _
                scan_inv_init Hst) as [_ _ Hrem]. simpl in Hrem.
  destruct (Hrem k Hin) as (j' & opj' & Hj' & Hpaint' & Hkj' & _).
  assert (j' = j) as ->.
  { destruct Hkj as [Hle Hopen], Hkj' as [Hle' Hopen'].
    destruct (lt_eq_lt_dec j' j) as [[Hlt | Heq] | Hgt]; [|done|].
    - exfalso. apply (Hopen j' opj'); [lia | done | by left].
    - exfalso. apply (Hopen' j opj); [lia | done | by right]. }
  rewrite Hj in Hj'. injection Hj' as <-.
  by apply (end_not_paint (operator opj)).
Qed.

(** X11 at a filled, a stroked and a clipping square, of which the first
    is marked: the stroked square and its operator [S] are not. *)
Lemma X11_unpainted_path_never_removed_witness :
  (2 ∉ ({[0; 1]} : gset nat)) ∧ (3 ∉ ({[0; 1]} : gset nat)).
Proof.
  assert (operator (Op [] "S") ∈ end_path_ops) as Hend.
  { apply (bool_decide_unpack _). reflexivity. }
  split;
    apply (X11_unpainted_path_never_removed true float_5_0 float_5_0
             stroked_and_clipped {[0; 1]} 3 (Op [] "S") eq_refl eq_refl Hend).
  - split; [lia|]. intros m op Hm Hlook.
    assert (m = 2) as -> by lia. injection Hlook as <-.
    intros [H | H]; absurd_elem_of H.
  - split; [lia|]. intros m op Hm. lia.
Defined.


(** *** Modes and thresholds *)

Lemma mode_sim_refl st : mode_sim st st.
Proof. by repeat split. Qed.

(** Two scans of the same operations stay in step when the decision of the
    first implies that of the second. *)
Lemma step_sim_gen ag mw mh ag' mw' mh' idx op c a :
  (∀ st st', mode_sim st st' →
     should_remove ag mw mh st = true → should_remove ag' mw' mh' st' = true) →
  mode_sim c a →
  match step ag mw mh idx op c, step ag' mw' mh' idx op a with
  | Some c', Some a' => mode_sim c' a'
  | None, None => True
  | _, _ => False
  end.
Proof.
  intros Hdec Hsim. pose proof Hsim as (Hpi & Hpr & Hnr & Hf & Hs & Hr).
  destruct (op_cases op) as [Hop | [Hop | [Hop | [Hop | Hop]]]].
  - rewrite !step_plain by done. rewrite Hf, Hs.
    destruct (color_step op (fill_color a) (color_stack a)) as [[col stack]|];
      simpl; [|done]. by repeat split.
  - rewrite !step_rect by done. rewrite Hpi, Hpr, Hnr.
    destruct (rect_operands (operands op)); by repeat split.
  - rewrite !step_segment by done. rewrite Hpi, Hpr. by repeat split.
  - rewrite !step_paint by done. rewrite Hpi.
    destruct (path_indices a) as [|i l] eqn:Hp; [by repeat split|].
    destruct (should_remove ag mw mh c) eqn:Hc.
    + rewrite (Hdec c a Hsim Hc). repeat split; try done. simpl. set_solver.
    + destruct (should_remove ag' mw' mh' a); repeat split; try done.
      simpl. set_solver.
  - rewrite !step_end by done. by repeat split.
Qed.

Lemma scan_from_sim_gen ag mw mh ag' mw' mh' ops :
  (∀ st st', mode_sim st st' →
     should_remove ag mw mh st = true → should_remove ag' mw' mh' st' = true) →
  ∀ idx c a,
    mode_sim c a →
    match scan_from ag mw mh idx ops c, scan_from ag' mw' mh' idx ops a with
    | Some c', Some a' => mode_sim c' a'
    | None, None => True
    | _, _ => False
    end.
Proof.
  intros Hdec. induction ops as [|op ops IH]; intros idx c a Hsim; simpl; [done|].
  pose proof (step_sim_gen ag mw mh ag' mw' mh' idx op c a Hdec Hsim) as Hstep.
  destruct (step ag mw mh idx op c) as [c'|],
           (step ag' mw' mh' idx op a) as [a'|]; simpl; try done.
  by apply IH.
Qed.

Lemma scan_sim_gen ag mw mh ag' mw' mh' ops :
  (∀ st st', mode_sim st st' →
     should_remove ag mw mh st = true → should_remove ag' mw' mh' st' = true) →
  match scan ag mw mh ops, scan ag' mw' mh' ops with
  | Some r, Some r' => r ⊆ r'
  | None, None => True
  | _, _ => False
  end.
Proof.
  intros Hdec. unfold scan.
  pose proof (scan_from_sim_gen ag mw mh ag' mw' mh' ops Hdec 0 _ _
                (mode_sim_refl init_state)) as H.
  destruct (scan_from ag mw mh 0 ops init_state) as [c|],
           (scan_from ag' mw' mh' 0 ops init_state) as [a|]; simpl; try done.
  by destruct H as (_ & _ & _ & _ & _ & H).
Qed.

Lemma should_remove_sim ag mw mh st st' :
  mode_sim st st' → should_remove ag mw mh st = should_remove ag mw mh st'.
Proof.
  intros (_ & Hpr & Hnr & Hf & _ & _). unfold should_remove.
  by rewrite Hpr, Hnr, Hf.
Qed.

(** X12: in aggressive mode the thresholds play no part: the scan marks
    the same indices, and raises on the same streams, whatever they are. *)
Theorem X12_aggressive_ignores_thresholds (min_width min_height
    min_width' min_height' : pyfloat) (ops : list operation) :
  scan true min_width min_height ops = scan true min_width' min_height' ops.
Proof.
  assert (∀ mw mh mw' mh' st st', mode_sim st st' →
            should_remove true mw mh st = true →
            should_remove true mw' mh' st' = true) as Hdec.
  { intros mw mh mw' mh' st st' Hsim.
    rewrite (should_remove_sim true mw mh st st' Hsim). unfold should_remove.
    by destruct (negb (path_has_non_rect st') && _). }
  pose proof (scan_sim_gen true min_width min_height true min_width' min_height'
                ops (Hdec _ _ _ _)) as H1.
  pose proof (scan_sim_gen true min_width' min_height' true min_width min_height
                ops (Hdec _ _ _ _)) as H2.
  destruct (scan true min_width min_height ops) as [r|],
           (scan true min_width' min_height' ops) as [r'|]; try done.
  f_equal. apply set_eq. intros k. split; [apply H1 | apply H2].
Qed.

Lemma any_large_mono (mw mh mw' mh' : pyfloat) rects :
  float_le mw' mw = true → float_le mh' mh = true →
  any_large mw mh rects = true → any_large mw' mh' rects = true.
Proof.
  intros Hw Hh. unfold any_large. rewrite !existsb_exists.
  intros ([w h] & Hin & Hwh). exists (w, h). split; [done|].
  apply andb_true_iff in Hwh as [Hw' Hh'].
  apply andb_true_iff. split.
  - by apply (float_le_trans _ mw).
  - by apply (float_le_trans _ mh).
Qed.

(** X13: in conservative mode lower thresholds remove at least as much: the
    two scans raise on the same streams, and every index marked with the
    higher thresholds is marked with the lower ones.  Lower is meant in
    the sense of [<=] on floats, so neither threshold of a pair is NaN. *)
Theorem X13_conservative_threshold_monotone (min_width min_height
    min_width' min_height' : pyfloat) (ops : list operation) :
  float_le min_width' min_width = true →
  float_le min_height' min_height = true →
  match scan false min_width min_height ops,
        scan false min_width' min_height' ops with
  | Some high, Some low => high ⊆ low
  | None, None => True
  | _, _ => False
  end.
Proof.
  intros Hw Hh. apply scan_sim_gen. intros st st' Hsim.
  rewrite (should_remove_sim false _ _ st st' Hsim). unfold should_remove.
  destruct (negb (path_has_non_rect st') && _); [|done].
  by apply any_large_mono.
Qed.

(** X13 at three black squares: with thresholds 5 and 5 the square of 2 by
    2 stays, with thresholds 1 and 1 it goes as well. *)
Lemma X13_conservative_threshold_monotone_witness :
  match scan false float_5_0 float_5_0 three_sizes,
        scan false float_1 float_1 three_sizes with
  | Some high, Some low => high ⊆ low
  | None, None => True
  | _, _ => False
  end.
Proof.
  apply (X13_conservative_threshold_monotone float_5_0 float_5_0 float_1 float_1
           three_sizes); by apply (bool_decide_unpack _).
Defined.

Example three_sizes_scans :
  scan false float_5_0 float_5_0 three_sizes = Some {[0; 1; 2; 3]} ∧
  scan false float_1 float_1 three_sizes = Some {[0; 1; 2; 3; 4; 5]}.
Proof. split; vm_compute; reflexivity. Qed.

(** *** Saves and restores *)

Lemma scan_from_app ag mw mh l1 l2 :
  ∀ idx st,
    scan_from ag mw mh idx (l1 ++ l2) st
    = st1 ← scan_from ag mw mh idx l1 st;
      scan_from ag mw mh (idx + length l1) l2 st1.
Proof.
  induction l1 as [|op l1 IH]; intros idx st; simpl.
  - by rewrite Nat.add_0_r.
  - destruct (step ag mw mh idx op st) as [st1|]; simpl; [|done].
    rewrite IH. by replace (S idx + length l1) with (idx + S (length l1)) by lia.
Qed.

Lemma step_save ag mw mh idx op st :
  operator op = "q" →
  step ag mw mh idx op st
  = Some (set_color st (fill_color st) (fill_color st :: color_stack st)).
Proof. destruct op as [operands operator]; simpl. by intros ->. Qed.

Lemma step_restore ag mw mh idx op st :
  operator op = "Q" →
  step ag mw mh idx op st
  = Some match color_stack st with
         | c :: stack => set_color st c stack
         | [] => set_color st black []
         end.
Proof.
  destruct op as [operands operator]; simpl. intros ->.
  unfold step; simpl. by destruct (color_stack st).
Qed.

Lemma step_stack_other ag mw mh idx op st st' :
  operator op ≠ "q" → operator op ≠ "Q" →
  step ag mw mh idx op st = Some st' →
  color_stack st' = color_stack st.
Proof.
  intros Hq HQ.
  destruct (op_cases op) as [Hop | [Hop | [Hop | [Hop | Hop]]]].
  - rewrite step_plain by done. unfold color_step.
    rewrite !bool_decide_eq_false_2 by done.
    repeat case_bool_decide.
    + destruct (float_operand (operands op) 0); [|done]. by intros [= <-].
    + destruct (float_operand (operands op) 0); [|done]. simpl.
      destruct (float_operand (operands op) 1); [|done]. simpl.
      destruct (float_operand (operands op) 2); [|done]. by intros [= <-].
    + by intros [= <-].
  - rewrite step_rect by done. intros [= <-].
    by destruct (rect_operands (operands op)).
  - rewrite step_segment by done. by intros [= <-].
  - rewrite step_paint by done. intros [= <-].
    destruct (path_indices st); [done|].
    by destruct (should_remove ag mw mh st).
  - rewrite step_end by done. by intros [= <-].
Qed.

(** A stream in which no [Q] lacks its [q] leaves the stack below the
    saves open at its start as it was. *)
Lemma scope_depth_stack ag mw mh ops :
  ∀ d d' idx st st' base pushed,
    scope_depth d ops = Some d' →
    scan_from ag mw mh idx ops st = Some st' →
    color_stack st = pushed ++ base → length pushed = d →
    ∃ pushed', color_stack st' = pushed' ++ base ∧ length pushed' = d'.
Proof.
  induction ops as [|op ops IH]; intros d d' idx st st' base pushed; simpl.
  - intros [= <-] [= <-] Hstack Hlen. by exists pushed.
  - intros Hdepth Hscan Hstack Hlen.
    destruct (step ag mw mh idx op st) as [st1|] eqn:Hstep; [|done].
    simpl in Hscan. revert Hdepth. repeat case_bool_decide.
    + intros Hdepth. rewrite step_save in Hstep by done. injection Hstep as <-.
      apply (IH _ _ _ _ _ base (fill_color st :: pushed) Hdepth Hscan); simpl.
      * by rewrite Hstack.
      * by rewrite Hlen.
    + destruct d as [|d0]; [done|]. intros Hdepth.
      destruct pushed as [|c pushed]; [done|]. simpl in Hstack, Hlen.
      rewrite step_restore, Hstack in Hstep by done. injection Hstep as <-.
      apply (IH _ _ _ _ _ base pushed Hdepth Hscan); simpl; [done | lia].
    + intros Hdepth.
      apply (IH _ _ _ _ _ base pushed Hdepth Hscan); [|done].
      by rewrite (step_stack_other ag mw mh idx op st st1).
Qed.

(** X14: a [Q] restores the colour its [q] saved: after [q], a balanced
    stream and [Q], the fill colour and the stack are what they were
    before the [q], whatever colours the stream sets in between. *)
Theorem X14_restore_undoes_save (ag : bool) (mw mh : pyfloat) (idx : nat)
    (o1 o2 : list pyobj) (body : list operation) (st st' : scan_state) :
  balanced body →
  scan_from ag mw mh idx (Op o1 "q" :: body ++ [Op o2 "Q"]) st = Some st' →
  fill_color st' = fill_color st ∧ color_stack st' = color_stack st.
Proof.
  unfold balanced. intros Hbal. simpl. rewrite scan_from_app. simpl.
  destruct (scan_from ag mw mh (S idx) body _) as [st1|] eqn:Hbody; [|done].
  simpl.
  destruct (scope_depth_stack ag mw mh body 0 0 (S idx) _ st1
              (fill_color st :: color_stack st) [] Hbal Hbody)
    as (pushed' & Hstack & Hlen); [done | done |].
  destruct pushed'; [|done]. simpl in Hstack.
  unfold step; simpl. rewrite Hstack. by intros [= <-].
Qed.

(** X14 at a stream that sets white, then blue inside a scope of its own:
    after the outer [Q] the colour is the black it was. *)
Lemma X14_restore_undoes_save_witness :
  fill_color init_state = fill_color init_state
  ∧ color_stack init_state = color_stack init_state.
Proof.
  apply (X14_restore_undoes_save true float_5_0 float_5_0 0 [] [] scoped_body
           init_state init_state); reflexivity.
Defined.

(** *** When the pass raises *)

Lemma step_None_iff ag mw mh idx op st :
  step ag mw mh idx op st = None ↔ bad_color_op op.
Proof.
  destruct op as [operands operator]. unfold step, bad_color_op; simpl.
  repeat case_bool_decide; subst; try done.
  - split; [done | by intros [[? _] | [? _]]].
  - destruct (color_stack st); split; try done; by intros [[? _] | [? _]].
  - destruct (float_operand operands 0); simpl.
    + split; [done | by intros [[_ ?] | [? _]]].
    + split; [by left | done].
  - destruct (float_operand operands 0); simpl;
      [|split; [intros _; right; split; [done | by left] | done]].
    destruct (float_operand operands 1); simpl;
      [|split; [intros _; right; split; [done | by right; left] | done]].
    destruct (float_operand operands 2); simpl;
      [|split; [intros _; right; split; [done | by right; right] | done]].
    split; [done|]. by intros [[? _] | [_ [? | [? | ?]]]].
  - destruct (rect_operands operands); split; try done;
      by intros [[? _] | [? _]].
  - split; [done|]. intros [[-> _] | [-> _]];
      match goal with H : _ ∈ non_rect_ops |- _ => absurd_elem_of H end.
  - destruct (path_indices st); [|destruct (should_remove _ _ _ _)];
      (split; [done|]); intros [[-> _] | [-> _]];
      match goal with H : _ ∈ paint_ops |- _ => absurd_elem_of H end.
  - split; [done|]. intros [[-> _] | [-> _]];
      match goal with H : _ ∈ end_path_ops |- _ => absurd_elem_of H end.
  - split; [done|]. by intros [[? _] | [? _]].
Qed.

Lemma scan_from_None_iff ag mw mh ops :
  ∀ idx st, scan_from ag mw mh idx ops st = None ↔ Exists bad_color_op ops.
Proof.
  induction ops as [|op ops IH]; intros idx st; simpl.
  - split; [done | by inversion 1].
  - rewrite Exists_cons, <- (step_None_iff ag mw mh idx op st).
    destruct (step ag mw mh idx op st) as [st1|]; simpl.
    + rewrite (IH (S idx) st1). split; [by right | by intros [? | ?]].
    + split; [by left | done].
Qed.

Lemma remove_black_rectangles_None_iff p ag mw mh :
  _remove_black_rectangles p ag mw mh = None
  ↔ ∃ ops, contents p = Some ops ∧ Exists bad_color_op ops.
Proof.
  unfold _remove_black_rectangles, scan.
  destruct (contents p) as [ops|].
  - split.
    + intros Hnone. exists ops. split; [done|].
      apply (scan_from_None_iff ag mw mh ops 0 init_state).
      destruct (scan_from ag mw mh 0 ops init_state) as [st|]; [|done].
      simpl in Hnone. by case_bool_decide.
    + intros (ops' & [= <-] & Hbad).
      by rewrite (proj2 (scan_from_None_iff ag mw mh ops 0 init_state) Hbad).
  - split; [done | by intros (? & ? & _)].
Qed.

(** X15: the pass raises exactly when the stream has a [g] whose first
    operand is missing or does not convert, or an [rg] of which one of the
    first three operands is missing or does not convert; this does not
    depend on the mode or on the thresholds.  An operand does not convert
    when it is a name, an array or an integer beyond the range of
    floats. *)
Theorem X15_raises_iff_bad_color_operand (p : page) (ag : bool) (mw mh : pyfloat) :
  _remove_black_rectangles p ag mw mh = None
  ↔ ∃ ops, contents p = Some ops ∧ Exists bad_color_op ops.
Proof. apply remove_black_rectangles_None_iff. Qed.

Example bad_gray_raises :
  _remove_black_rectangles (Page None (Some bad_gray)) true float_5_0 float_5_0
  = None.
Proof. reflexivity. Qed.

(** An integer too large for a float makes [g] raise; as the width of an
    [re] it is caught, and the path is kept as one that is not made of
    rectangles. *)
Example huge_operands :
  _remove_black_rectangles (Page None (Some huge_gray)) true float_5_0 float_5_0
  = None ∧
  _remove_black_rectangles (Page None (Some huge_width)) true float_5_0 float_5_0
  = Some (0, Page None (Some huge_width)).
Proof. split; vm_compute; reflexivity. Qed.


(** *** The operations that are left *)

(** What one turn of the loop can mark, and what it can add to the path. *)
Lemma step_future ag mw mh idx op st st1 :
  step ag mw mh idx op st = Some st1 →
  remove_indices st ⊆ remove_indices st1
  ∧ (∀ k, k ∈ remove_indices st1 →
          k ∈ remove_indices st ∨ k ∈ path_indices st ∨ k = idx)
  ∧ (∀ k, k ∈ path_indices st1 → k ∈ path_indices st ∨ k = idx).
Proof.
  destruct (op_cases op) as [Hop | [Hop | [Hop | [Hop | Hop]]]].
  - rewrite step_plain by done.
    destruct (color_step op (fill_color st) (color_stack st)) as [[c stack]|];
      [|done]. simpl. intros [= <-]. simpl. auto.
  - rewrite step_rect by done. intros [= <-].
    destruct (rect_operands (operands op)); simpl;
      (split; [done|]; split; [auto|]);
      intros k [Hk | Hk%list_elem_of_singleton]%elem_of_app; auto.
  - rewrite step_segment by done. intros [= <-]. simpl.
    split; [done|]. split; [auto|].
    intros k [Hk | Hk%list_elem_of_singleton]%elem_of_app; auto.
  - rewrite step_paint by done. intros [= <-].
    destruct (path_indices st) as [|i l] eqn:Hp; simpl.
    { split; [done|]. split; [auto|]. by intros k Hk%elem_of_nil. }
    destruct (should_remove ag mw mh st); simpl.
    + split; [set_solver|]. split; [|by intros k Hk%elem_of_nil].
      intros k Hk. set_unfold in Hk. destruct Hk as [[Hk | Hk] | ->]; auto.
      right. left. by apply elem_of_cons.
    + split; [done|]. split; [auto|]. by intros k Hk%elem_of_nil.
  - rewrite step_end by done. intros [= <-]. simpl.
    split; [done|]. split; [auto|]. by intros k Hk%elem_of_nil.
Qed.

Lemma scan_from_mono ag mw mh ops :
  ∀ idx st st',
    scan_from ag mw mh idx ops st = Some st' →
    remove_indices st ⊆ remove_indices st'.
Proof.
  induction ops as [|op ops IH]; intros idx st st'; simpl.
  - by intros [= <-].
  - destruct (step ag mw mh idx op st) as [st1|] eqn:Hstep; [|done]. simpl.
    intros Hscan. destruct (step_future _ _ _ _ _ _ _ Hstep) as (Hsub & _ & _).
    specialize (IH _ _ _ Hscan). set_solver.
Qed.

(** An index below the point reached can still be marked only if it is in
    the path under construction. *)
Lemma scan_from_future ag mw mh ops :
  ∀ idx st st',
    scan_from ag mw mh idx ops st = Some st' →
    ∀ k, k ∈ remove_indices st' →
         k ∈ remove_indices st ∨ k ∈ path_indices st ∨ idx ≤ k.
Proof.
  induction ops as [|op ops IH]; intros idx st st'; simpl.
  - intros [= <-]. auto.
  - destruct (step ag mw mh idx op st) as [st1|] eqn:Hstep; [|done]. simpl.
    intros Hscan k Hk.
    destruct (step_future _ _ _ _ _ _ _ Hstep) as (_ & Hrem & Hpath).
    destruct (IH _ _ _ Hscan k Hk) as [Hk1 | [Hk1 | Hk1]].
    + destruct (Hrem k Hk1) as [? | [? | ->]]; auto.
    + destruct (Hpath k Hk1) as [? | ->]; auto.
    + right. right. lia.
Qed.

(** The indices of the path under construction are marked together or not
    at all. *)
Lemma scan_from_uniform ag mw mh ops :
  ∀ idx st st',
    scan_wf idx st →
    scan_from ag mw mh idx ops st = Some st' →
    (∀ k, k ∈ path_indices st → k ∈ remove_indices st')
    ∨ (∀ k, k ∈ path_indices st → k ∉ remove_indices st').
Proof.
  induction ops as [|op ops IH]; intros idx st st' Hwf; simpl.
  - intros [= <-]. right. intros k Hk. by destruct (wf_path _ _ Hwf k Hk).
  - destruct (step ag mw mh idx op st) as [st1|] eqn:Hstep; [|done]. simpl.
    intros Hscan.
    pose proof (scan_wf_step _ _ _ _ _ _ _ Hwf Hstep) as Hwf1.
    pose proof (scan_from_mono _ _ _ _ _ _ _ Hscan) as Hmono.
    pose proof (scan_from_future _ _ _ _ _ _ _ Hscan) as Hfut.
    specialize (IH _ _ _ Hwf1 Hscan).
    assert (∀ st0, remove_indices st0 = remove_indices st →
                   path_indices st0 = [] → st1 = st0 →
                   ∀ k, k ∈ path_indices st → k ∉ remove_indices st') as Hreset.
    { intros st0 Hr0 Hp0 -> k Hk Hin. destruct (wf_path _ _ Hwf k Hk) as [Hlt Hnot].
      destruct (Hfut k Hin) as [Hk1 | [Hk1 | Hk1]].
      - by rewrite Hr0 in Hk1.
      - rewrite Hp0 in Hk1. by apply elem_of_nil in Hk1.
      - lia. }
    assert (∀ rects flag,
              st1 = set_path st (path_indices st ++ [idx]) rects flag →
              (∀ k, k ∈ path_indices st → k ∈ remove_indices st')
              ∨ (∀ k, k ∈ path_indices st → k ∉ remove_indices st')) as Hpush.
    { intros rects flag ->. simpl in IH.
      destruct IH as [IH | IH]; [left | right]; intros k Hk; apply IH;
        apply elem_of_app; by left. }
    destruct (op_cases op) as [Hop | [Hop | [Hop | [Hop | Hop]]]].
    + rewrite step_plain in Hstep by done.
      destruct (color_step op (fill_color st) (color_stack st)) as [[c stack]|];
        [|done]. simpl in Hstep. injection Hstep as <-. exact IH.
    + rewrite step_rect in Hstep by done. injection Hstep as Hstep.
      destruct (rect_operands (operands op)); by eapply Hpush.
    + rewrite step_segment in Hstep by done. injection Hstep as Hstep.
      by eapply Hpush.
    + rewrite step_paint in Hstep by done. injection Hstep as Hstep.
      destruct (path_indices st) as [|i l] eqn:Hp.
      { right. by intros k Hk%elem_of_nil. }
      destruct (should_remove ag mw mh st).
      * left. intros k Hk. apply Hmono. rewrite <- Hstep. simpl.
        set_solver.
      * right. by apply (Hreset (reset_path st)).
    + rewrite step_end in Hstep by done. injection Hstep as Hstep.
      right. by apply (Hreset (reset_path st)).
Qed.

Lemma should_remove_ext ag mw mh st st2 :
  path_rects st2 = path_rects st →
  path_has_non_rect st2 = path_has_non_rect st →
  fill_color st2 = fill_color st →
  should_remove ag mw mh st2 = should_remove ag mw mh st.
Proof. intros Hr Hn Hf. unfold should_remove. by rewrite Hr, Hn, Hf. Qed.

(** The scan of what is left of a stream follows the scan of the stream
    and marks nothing. *)
Lemma filter_scan_sim ag mw mh ops :
  ∀ idx st st_f idx2 st2,
    scan_wf idx st →
    scan_from ag mw mh idx ops st = Some st_f →
    filtered_sim (remove_indices st_f) st st2 →
    ∃ st2_f,
      scan_from ag mw mh idx2 (filter_ops idx (remove_indices st_f) ops) st2
      = Some st2_f
      ∧ remove_indices st2_f = ∅.
Proof.
  induction ops as [|op ops IH]; intros idx st st_f idx2 st2 Hwf; simpl.
  { intros [= <-] (_ & _ & Hempty & _). by exists st2. }
  destruct (step ag mw mh idx op st) as [st1|] eqn:Hstep; [|done]. simpl.
  intros Hscan (Hfill & Hstack & Hempty & Hpaths).
  pose proof (scan_wf_step _ _ _ _ _ _ _ Hwf Hstep) as Hwf1.
  pose proof (scan_from_mono _ _ _ _ _ _ _ Hscan) as Hmono.
  pose proof (scan_from_future _ _ _ _ _ _ _ Hscan) as Hfut.
  pose proof (scan_from_uniform _ _ _ _ _ _ _ Hwf1 Hscan) as Huni.
  set (R := remove_indices st_f) in *.
  (* the index of the operation cannot be marked later unless the
     operation puts it in the path or marks it *)
  assert (idx ∈ R → remove_indices st1 = remove_indices st →
          idx ∉ path_indices st1 → False) as Hlate.
  { intros Hin Hr Hp. destruct (Hfut idx Hin) as [Hk | [Hk | Hk]]; [|done|lia].
    rewrite Hr in Hk. specialize (wf_removed _ _ Hwf idx Hk). lia. }
  (* a path that is dropped unmarked is not marked later *)
  assert (remove_indices st1 = remove_indices st → path_indices st1 = [] →
          ∀ k, k ∈ path_indices st → k ∉ R) as Hdropped.
  { intros Hr Hp k Hk Hin. destruct (wf_path _ _ Hwf k Hk) as [Hlt Hnot].
    destruct (Hfut k Hin) as [Hk1 | [Hk1 | Hk1]];
      [|rewrite Hp in Hk1; by apply elem_of_nil in Hk1|lia].
    by rewrite Hr in Hk1. }
  (* the second scan has no path when the first has a path that goes *)
  assert ((∀ k, k ∈ path_indices st → k ∈ R) →
          path_indices st2 = [] ∧ path_rects st2 = []
          ∧ path_has_non_rect st2 = false) as Hgone.
  { intros Hall. destruct Hpaths as [(_ & _ & ? & ? & ?) | (Hnone & Hr & Hn & Hp)];
      [done|].
    assert (path_indices st = []) as Hnil.
    { destruct (path_indices st) as [|i l]; [done|]. exfalso.
      apply (Hnone i); [by left | apply Hall; by left]. }
    destruct (wf_empty _ _ Hwf Hnil) as [Hr0 Hn0].
    rewrite Hr, Hn, Hr0, Hn0. split; [by apply Hp | done]. }
  (* the second scan has the path of the first when that path stays *)
  assert ((∀ k, k ∈ path_indices st → k ∉ R) →
          path_rects st2 = path_rects st
          ∧ path_has_non_rect st2 = path_has_non_rect st
          ∧ (path_indices st2 = [] ↔ path_indices st = [])) as Hstays.
  { intros Hnone. destruct Hpaths as [(Hne & Hall & _) | (_ & ? & ? & ?)]; [|done].
    exfalso. destruct (path_indices st) as [|i l]; [done|].
    apply (Hnone i); [by left | apply Hall; by left]. }
  case_bool_decide as HinR.
  - (* the operation is taken out: the second scan does not see it *)
    apply (IH (S idx) st1 st_f idx2 st2 Hwf1 Hscan). fold R.
    destruct (op_cases op) as [Hop | [Hop | [Hop | [Hop | Hop]]]].
    + exfalso. rewrite step_plain in Hstep by done.
      destruct (color_step op (fill_color st) (color_stack st)) as [[c stack]|];
        [|done]. injection Hstep as <-. apply Hlate; [done | done | simpl].
      intros Hk. destruct (wf_path _ _ Hwf idx Hk). lia.
    + rewrite step_rect in Hstep by done. injection Hstep as Hstep.
      assert (∀ k, k ∈ path_indices st ++ [idx] → k ∈ R) as Hall.
      { destruct Huni as [Hall | Hnone];
          destruct (rect_operands (operands op)); subst st1; simpl in *;
          try done; exfalso; apply (Hnone idx); try done;
          apply elem_of_app; right; by apply list_elem_of_singleton. }
      destruct Hgone as (Hp2 & Hr2 & Hn2).
      { intros k Hk. apply Hall, elem_of_app. by left. }
      destruct (rect_operands (operands op)); subst st1;
        (split; [done|]; split; [done|]; split; [done|]; left; simpl;
         split; [by intros [_ ?]%app_eq_nil|]; done).
    + rewrite step_segment in Hstep by done. injection Hstep as Hstep.
      assert (∀ k, k ∈ path_indices st ++ [idx] → k ∈ R) as Hall.
      { destruct Huni as [Hall | Hnone]; subst st1; simpl in *; [done|].
        exfalso. apply (Hnone idx); [|done].
        apply elem_of_app; right; by apply list_elem_of_singleton. }
      destruct Hgone as (Hp2 & Hr2 & Hn2).
      { intros k Hk. apply Hall, elem_of_app. by left. }
      subst st1. split; [done|]. split; [done|]. split; [done|]. left. simpl.
      split; [by intros [_ ?]%app_eq_nil|]. done.
    + rewrite step_paint in Hstep by done. injection Hstep as Hstep.
      destruct (path_indices st) as [|i l] eqn:Hp.
      { exfalso. subst st1. apply Hlate; [done | done | by intros ?%elem_of_nil]. }
      destruct (should_remove ag mw mh st).
      * destruct Hgone as (Hp2 & Hr2 & Hn2).
        { intros k Hk. apply Hmono. subst st1. simpl. set_solver. }
        subst st1. split; [done|]. split; [done|]. split; [done|]. right. simpl.
        split; [by intros k ?%elem_of_nil|]. by rewrite Hp2, Hr2, Hn2.
      * exfalso. subst st1. apply Hlate; [done | done | by intros ?%elem_of_nil].
    + exfalso. rewrite step_end in Hstep by done. injection Hstep as <-.
      apply Hlate; [done | done | by intros ?%elem_of_nil].
  - (* the operation stays: the second scan takes the same turn *)
    simpl. destruct (op_cases op) as [Hop | [Hop | [Hop | [Hop | Hop]]]].
    + rewrite step_plain in Hstep by done. rewrite step_plain by done.
      rewrite Hfill, Hstack.
      destruct (color_step op (fill_color st) (color_stack st)) as [[c stack]|];
        [|done]. injection Hstep as <-. simpl.
      apply (IH (S idx) _ st_f (S idx2) _ Hwf1 Hscan). fold R.
      by repeat split.
    + rewrite step_rect in Hstep by done. injection Hstep as Hstep.
      rewrite step_rect by done. simpl.
      assert (∀ k, k ∈ path_indices st ++ [idx] → k ∉ R) as Hnone.
      { destruct Huni as [Hall | Hnone];
          destruct (rect_operands (operands op)); subst st1; simpl in *;
          try done; exfalso; apply HinR, Hall;
          apply elem_of_app; right; by apply list_elem_of_singleton. }
      destruct Hstays as (Hr2 & Hn2 & Hp2).
      { intros k Hk. apply Hnone, elem_of_app. by left. }
      apply (IH (S idx) st1 st_f (S idx2) _ Hwf1 Hscan). fold R.
      destruct (rect_operands (operands op)); subst st1;
        (split; [done|]; split; [done|]; split; [done|]; right; simpl;
         split; [done|]; rewrite ?Hr2, ?Hn2; split; [done|]; split; [done|];
         split; by intros [_ ?]%app_eq_nil).
    + rewrite step_segment in Hstep by done. injection Hstep as Hstep.
      rewrite step_segment by done. simpl.
      assert (∀ k, k ∈ path_indices st ++ [idx] → k ∉ R) as Hnone.
      { destruct Huni as [Hall | Hnone]; subst st1; simpl in *; [|done].
        exfalso. apply HinR, Hall.
        apply elem_of_app; right; by apply list_elem_of_singleton. }
      destruct Hstays as (Hr2 & Hn2 & Hp2).
      { intros k Hk. apply Hnone, elem_of_app. by left. }
      apply (IH (S idx) st1 st_f (S idx2) _ Hwf1 Hscan). fold R.
      subst st1. split; [done|]. split; [done|]. split; [done|]. right. simpl.
      split; [done|]. rewrite Hr2. split; [done|]. split; [done|].
      split; by intros [_ ?]%app_eq_nil.
    + rewrite step_paint in Hstep by done. injection Hstep as Hstep.
      rewrite step_paint by done. simpl.
      assert (st1 = reset_path st
              ∧ (path_indices st = []
                 ∨ should_remove ag mw mh st = false)) as [-> Hnot].
      { destruct (path_indices st) as [|i l] eqn:Hp; [by auto|].
        destruct (should_remove ag mw mh st); [|by auto].
        exfalso. apply HinR, Hmono. subst st1. simpl. set_solver. }
      destruct Hstays as (Hr2 & Hn2 & Hp2).
      { by apply Hdropped. }
      assert (match path_indices st2 with
              | [] => reset_path st2
              | _ :: _ =>
                  if should_remove ag mw mh st2
                  then reset_path
                         (set_removed st2
                            (remove_indices st2 ∪ list_to_set (path_indices st2)
                             ∪ {[idx2]}))
                  else reset_path st2
              end = reset_path st2) as ->.
      { destruct (path_indices st2) as [|i2 l2] eqn:Hp2'; [done|].
        rewrite (should_remove_ext ag mw mh st st2) by done.
        destruct Hnot as [Hnil | ->]; [|done].
        apply Hp2 in Hnil. done. }
      apply (IH (S idx) _ st_f (S idx2) _ Hwf1 Hscan). fold R.
      split; [done|]. split; [done|]. split; [done|]. right. simpl.
      split; [by intros k ?%elem_of_nil|]. done.
    + rewrite step_end in Hstep by done. injection Hstep as <-.
      rewrite step_end by done. simpl.
      apply (IH (S idx) _ st_f (S idx2) _ Hwf1 Hscan). fold R.
      split; [done|]. split; [done|]. split; [done|]. right. simpl.
      split; [by intros k ?%elem_of_nil|]. done.
Qed.

Lemma scan_filter_ops ag mw mh ops removed :
  scan ag mw mh ops = Some removed →
  scan ag mw mh (filter_ops 0 removed ops) = Some ∅.
Proof.
  unfold scan.
  destruct (scan_from ag mw mh 0 ops init_state) as [st|] eqn:Hst; [|done].
  simpl. intros [= <-].
  destruct (filter_scan_sim ag mw mh ops 0 init_state st 0 init_state
              scan_wf_init Hst) as (st2 & Hst2 & Hnone).
  { split; [done|]. split; [done|]. split; [done|]. right. simpl.
    split; [by intros k ?%elem_of_nil|]. done. }
  rewrite Hst2. simpl. by rewrite Hnone.
Qed.

(** X16: the list of operations that the pass leaves holds nothing that the
    pass would take out: the loop run over that list, with the same mode and
    thresholds, does not raise and marks no index.  The operations that
    stay keep their colours, since no colour operator is ever taken out,
    and their paths.  This is said of the list as the pass builds it, not
    of what is parsed from the stream written for it. *)
Theorem X16_operations_left_scan_clean (ag : bool) (mw mh : pyfloat)
    (ops : list operation) (removed : gset nat) :
  scan ag mw mh ops = Some removed →
  scan ag mw mh (filter_ops 0 removed ops) = Some ∅.
Proof. apply scan_filter_ops. Qed.

(** X16 at Scenario A: the scan of the stream without the indices 2 and 3
    marks nothing. *)
Lemma X16_operations_left_scan_clean_witness :
  scan true float_5_0 float_5_0 (filter_ops 0 {[2; 3]} scenario_A) = Some ∅.
Proof.
  apply (X16_operations_left_scan_clean true float_5_0 float_5_0 scenario_A
           {[2; 3]}). reflexivity.
Defined.


(** ** The decision at a paint operator *)

Lemma any_large_iff mw mh rects :
  any_large mw mh rects = true ↔ some_large mw mh rects.
Proof.
  unfold any_large, some_large. rewrite existsb_exists, list.Exists_exists.
  split; intros ([w h] & Hin & Hwh); exists (w, h).
  - apply list_elem_of_In in Hin. split; [done|].
    by apply andb_true_iff in Hwh.
  - split; [by apply list_elem_of_In|]. by apply andb_true_iff.
Qed.

Lemma should_remove_iff ag mw mh st :
  should_remove ag mw mh st = true
  ↔ path_has_non_rect st = false ∧ within_tolerance (fill_color st)
    ∧ (ag = true ∨ some_large mw mh (path_rects st)).
Proof.
  unfold should_remove, within_tolerance. rewrite <- any_large_iff.
  destruct (fill_color st) as [[r g] b]. rewrite <- is_black_color_rgb.
  destruct (path_has_non_rect st); simpl; [split; [done | by intros [? _]]|].
  destruct (_is_black_color _ _); simpl;
    [|split; [done | by intros (_ & ? & _)]].
  destruct ag.
  - split; [intros _; repeat split; by left | done].
  - split; [intros H; repeat split; by right | by intros (_ & _ & [? | ?])].
Qed.

(** The scan of a stream, cut at a paint operator: the state before that
    operator, and what the operator and the rest of the stream do to the
    indices of its path. *)
Lemma scan_at_paint ag mw mh ops removed j opj :
  scan ag mw mh ops = Some removed →
  ops !! j = Some opj → is_paint opj →
  ∃ st, scan_from ag mw mh 0 (take j ops) init_state = Some st
    ∧ (j ∈ removed ↔ path_indices st ≠ [] ∧ should_remove ag mw mh st = true)
    ∧ (∀ k, k ∈ path_indices st → (k ∈ removed ↔ j ∈ removed)).
Proof.
  unfold scan. intros Hscan Hj Hpaint.
  destruct (scan_from ag mw mh 0 ops init_state) as [st_f|] eqn:Hst; [|done].
  injection Hscan as <-.
  rewrite <- (take_drop_middle ops j opj Hj), scan_from_app in Hst.
  destruct (scan_from ag mw mh 0 (take j ops) init_state) as [st|] eqn:Hpre;
    [|done]. simpl in Hst.
  assert (length (take j ops) = j) as Hlen.
  { apply length_take_le. apply lookup_lt_Some in Hj. lia. }
  rewrite Hlen in Hst.
  destruct (step ag mw mh j opj st) as [st1|] eqn:Hstep; [|done]. simpl in Hst.
  exists st. split; [done|].
  pose proof (scan_wf_scan_from _ _ _ _ _ _ _ scan_wf_init Hpre) as Hwf.
  rewrite Hlen in Hwf. simpl in Hwf.
  pose proof (scan_from_mono _ _ _ _ _ _ _ Hst) as Hmono.
  pose proof (scan_from_future _ _ _ _ _ _ _ Hst) as Hfut.
  rewrite step_paint in Hstep by done. injection Hstep as Hstep.
  assert (path_indices st1 = []) as Hp1.
  { subst st1. destruct (path_indices st); [done|].
    by destruct (should_remove ag mw mh st). }
  (* what the paint operator does not mark is not marked later *)
  assert (∀ k, k ≤ j → k ∉ remove_indices st1 → k ∉ remove_indices st_f)
    as Hlate.
  { intros k Hk Hnot Hin. destruct (Hfut k Hin) as [? | [Hk1 | ?]]; [done| |lia].
    rewrite Hp1 in Hk1. by apply elem_of_nil in Hk1. }
  assert (j ∉ remove_indices st) as Hjst.
  { intros Hin. specialize (wf_removed _ _ Hwf j Hin). lia. }
  destruct (path_indices st) as [|i l] eqn:Hp.
  { subst st1. split; [|by intros k ?%elem_of_nil].
    split; [|by intros [? _]]. intros Hin. exfalso.
    by apply (Hlate j). }
  destruct (should_remove ag mw mh st) eqn:Hrm; subst st1; simpl in *.
  - assert (j ∈ remove_indices st_f) as Hjf by (apply Hmono; set_solver).
    split; [by split|]. intros k Hk. split; [done|]. intros _.
    apply Hmono. set_solver.
  - assert (j ∉ remove_indices st_f) as Hjf by (by apply Hlate).
    split; [split; [done | by intros [_ ?]]|].
    intros k Hk. split; [|done]. intros Hin. exfalso.
    destruct (wf_path _ _ Hwf k) as [Hlt Hnot]; [by rewrite Hp|].
    apply (Hlate k); [lia | done | done].
Qed.

(** X22: the decision at a paint operator.  The operator is taken out
    exactly when, in the state the loop is in when it reaches it, a path is
    under construction, no segment of it is other than a rectangle, each
    channel of the fill colour is at most 0.02 and, in conservative mode,
    some rectangle of the path is at least as wide and as high as the
    thresholds; and the operations of that path are taken out with it or
    not at all.  The widths, heights and channels compared are the floats
    that the operands convert to, and the comparisons are those of floats:
    none holds of NaN. *)
Theorem X22_paint_removed_iff (ag : bool) (mw mh : pyfloat) (ops : list operation)
    (removed : gset nat) (j : nat) (opj : operation) :
  scan ag mw mh ops = Some removed →
  ops !! j = Some opj → is_paint opj →
  ∃ st, scan_from ag mw mh 0 (take j ops) init_state = Some st
    ∧ (j ∈ removed
       ↔ path_indices st ≠ [] ∧ path_has_non_rect st = false
         ∧ within_tolerance (fill_color st)
         ∧ (ag = true ∨ some_large mw mh (path_rects st)))
    ∧ (∀ k, k ∈ path_indices st → (k ∈ removed ↔ j ∈ removed)).
Proof.
  intros Hscan Hj Hpaint.
  destruct (scan_at_paint ag mw mh ops removed j opj Hscan Hj Hpaint)
    as (st & Hst & Hiff & Hpath).
  exists st. split; [done|]. split; [|done].
  by rewrite Hiff, should_remove_iff.
Qed.

(** X22 at the first paint operator of the stream of three paths. *)
Lemma X22_paint_removed_iff_witness :
  ∃ st, scan_from true float_5_0 float_5_0 0 (take 1 mixed_paths) init_state
        = Some st
    ∧ (1 ∈ ({[0; 1]} : gset nat)
       ↔ path_indices st ≠ [] ∧ path_has_non_rect st = false
         ∧ within_tolerance (fill_color st)
         ∧ (true = true ∨ some_large float_5_0 float_5_0 (path_rects st)))
    ∧ (∀ k, k ∈ path_indices st →
            (k ∈ ({[0; 1]} : gset nat) ↔ 1 ∈ ({[0; 1]} : gset nat))).
Proof.
  apply (X22_paint_removed_iff true float_5_0 float_5_0 mixed_paths {[0; 1]} 1
           (Op [] "f")); [reflexivity | reflexivity |].
  apply (bool_decide_unpack _). reflexivity.
Defined.

(** The width compared is the float the operand converts to: the integer
    2^53 + 3 is rounded to 2^53 + 4, and so reaches a threshold of 2^53 + 4
    that the integer itself is below.  A threshold that is NaN is reached
    by no rectangle. *)
Example rounded_width_reaches_threshold :
  scan false (float_of_Z (2 ^ 53 + 4)) float_5_0 wide_rectangle = Some {[0; 1]} ∧
  scan false (float_of_Z (2 ^ 53 + 6)) float_5_0 wide_rectangle = Some ∅ ∧
  scan false NaN float_5_0 wide_rectangle = Some ∅ ∧
  scan true NaN NaN wide_rectangle = Some {[0; 1]}.
Proof. repeat split; vm_compute; reflexivity. Qed.


(** ** The two passes together *)

Lemma remove_redaction_annots_contents p ag c :
  _remove_redaction_annots (Page (raw_annots p) c) ag
  = ((_remove_redaction_annots p ag).1,
     Page (raw_annots (_remove_redaction_annots p ag).2) c).
Proof.
  rewrite !remove_redaction_annots_spec. simpl.
  destruct (raw_annots p) as [v|] eqn:Hp; simpl; [|by rewrite Hp].
  destruct (annots_truthy v); simpl; [|by rewrite Hp].
  by destruct (kept_annots ag (get_object v)).
Qed.

Lemma remove_redaction_annots_keeps_contents p ag :
  contents (_remove_redaction_annots p ag).2 = contents p.
Proof.
  rewrite remove_redaction_annots_spec.
  destruct (raw_annots p) as [v|]; simpl; [|done].
  destruct (annots_truthy v); simpl; [|done].
  by destruct (kept_annots ag (get_object v)).
Qed.

Lemma remove_black_rectangles_annots p ag mw mh a :
  _remove_black_rectangles (Page a (contents p)) ag mw mh
  = (λ '(n, q), (n, Page a (contents q))) <$> _remove_black_rectangles p ag mw mh.
Proof.
  unfold _remove_black_rectangles. simpl.
  destruct (contents p) as [ops|] eqn:Hp; simpl; [|by rewrite Hp].
  destruct (scan ag mw mh ops) as [removed|]; simpl; [|done].
  case_bool_decide; simpl; [by rewrite Hp | done].
Qed.

Lemma remove_black_rectangles_keeps_annots p ag mw mh n p' :
  _remove_black_rectangles p ag mw mh = Some (n, p') →
  raw_annots p' = raw_annots p.
Proof.
  unfold _remove_black_rectangles. destruct (contents p) as [ops|].
  - destruct (scan ag mw mh ops) as [removed|]; simpl; [|done].
    case_bool_decide; by intros [= <- <-].
  - by intros [= <- <-].
Qed.

(** X17: the two passes touch different parts of the page and can be run
    in either order: the annotation pass leaves the content stream as it
    is, the content-stream pass leaves the annotation list as it is, the
    entry itself and not only the array it resolves to, and running them
    one after the other gives the same two counts and the same page
    whichever comes first. *)
Theorem X17_passes_commute (p : page) (ag ag' : bool) (mw mh : pyfloat) :
  contents (_remove_redaction_annots p ag).2 = contents p
  ∧ (∀ n q, _remove_black_rectangles p ag' mw mh = Some (n, q) →
            annots q = annots p)
  ∧ _remove_black_rectangles (_remove_redaction_annots p ag).2 ag' mw mh
    = (λ '(n, q), (n, (_remove_redaction_annots q ag).2))
        <$> _remove_black_rectangles p ag' mw mh
  ∧ (∀ n q, _remove_black_rectangles p ag' mw mh = Some (n, q) →
            (_remove_redaction_annots q ag).1 = (_remove_redaction_annots p ag).1)
  ∧ (∀ n q, _remove_black_rectangles p ag' mw mh = Some (n, q) →
            raw_annots q = raw_annots p).
Proof.
  split; [apply remove_redaction_annots_keeps_contents|].
  split.
  { intros n q Hrect. unfold annots.
    by rewrite (remove_black_rectangles_keeps_annots _ _ _ _ _ _ Hrect). }
  cut ((_remove_black_rectangles (_remove_redaction_annots p ag).2 ag' mw mh
        = (λ '(n, q), (n, (_remove_redaction_annots q ag).2))
            <$> _remove_black_rectangles p ag' mw mh)
       ∧ (∀ n q, _remove_black_rectangles p ag' mw mh = Some (n, q) →
            (_remove_redaction_annots q ag).1 = (_remove_redaction_annots p ag).1)).
  { intros [? ?]. split; [done|]. split; [done|].
    apply remove_black_rectangles_keeps_annots. }
  assert (∀ n q, _remove_black_rectangles p ag' mw mh = Some (n, q) →
            _remove_redaction_annots q ag
            = ((_remove_redaction_annots p ag).1,
               Page (raw_annots (_remove_redaction_annots p ag).2) (contents q)))
    as Hq.
  { intros n q Hrect.
    rewrite <- (remove_redaction_annots_contents p ag (contents q)).
    rewrite <- (remove_black_rectangles_keeps_annots _ _ _ _ _ _ Hrect).
    by destruct q. }
  split.
  - pose proof (remove_black_rectangles_annots p ag' mw mh
                  (raw_annots (_remove_redaction_annots p ag).2)) as Hrect.
    rewrite <- (remove_redaction_annots_keeps_contents p ag) in Hrect at 1.
    replace (Page (raw_annots (_remove_redaction_annots p ag).2)
                  (contents (_remove_redaction_annots p ag).2))
      with (_remove_redaction_annots p ag).2 in Hrect
      by (by destruct (_remove_redaction_annots p ag).2).
    rewrite Hrect.
    destruct (_remove_black_rectangles p ag' mw mh) as [[n q]|] eqn:Hp;
      simpl; [|done].
    by rewrite (Hq n q).
  - intros n q Hrect. by rewrite (Hq n q Hrect).
Qed.

(** ** The loop over the pages *)

Lemma main_loop_cons p rest a r w :
  main_loop (p :: rest) a r w
  = '(n, m, p') ← process_page p; main_loop rest (a + n) (r + m) (w ++ [p']).
Proof.
  unfold process_page. simpl.
  destruct (_remove_redaction_annots p true) as [n p1].
  by destruct (_remove_black_rectangles p1 true _ _) as [[m p2]|].
Qed.

Lemma process_page_inv p n m p' :
  process_page p = Some (n, m, p') →
  n = (_remove_redaction_annots p true).1
  ∧ _remove_black_rectangles (_remove_redaction_annots p true).2 true
      default_min_width default_min_height = Some (m, p').
Proof.
  unfold process_page. destruct (_remove_redaction_annots p true) as [n1 p1].
  simpl. destruct (_remove_black_rectangles p1 true _ _) as [[m2 p2]|]; [|done].
  by intros [= <- <- <-].
Qed.

Lemma remove_black_rectangles_length p ag mw mh n p' :
  _remove_black_rectangles p ag mw mh = Some (n, p') →
  length (page_ops p) = n + length (page_ops p').
Proof.
  intros Hrect. unfold page_ops. destruct (contents p) as [ops|] eqn:Hops.
  - destruct (remove_black_rectangles_output _ _ _ _ _ _ _ Hops Hrect)
      as (ops' & -> & _ & Hlen). simpl. lia.
  - unfold _remove_black_rectangles in Hrect. rewrite Hops in Hrect.
    injection Hrect as <- <-. by rewrite Hops.
Qed.

Lemma process_page_lengths p n m p' :
  process_page p = Some (n, m, p') →
  length (page_annots p) = n + length (page_annots p')
  ∧ length (page_ops p) = m + length (page_ops p').
Proof.
  intros [-> Hrect]%process_page_inv. split.
  - rewrite (remove_redaction_annots_length p true). unfold page_annots, annots.
    by rewrite (remove_black_rectangles_keeps_annots _ _ _ _ _ _ Hrect).
  - rewrite <- (remove_black_rectangles_length _ _ _ _ _ _ Hrect).
    unfold page_ops. by rewrite remove_redaction_annots_keeps_contents.
Qed.

(** The loop adds one page for each page read, and its totals are the
    numbers of annotations and of operations that the pages lost. *)
Lemma main_loop_totals pages :
  ∀ a r w a' r' out,
    main_loop pages a r w = Some (a', r', out) →
    ∃ new, out = w ++ new ∧ length new = length pages
      ∧ a + sum_list (length ∘ page_annots <$> pages)
        = a' + sum_list (length ∘ page_annots <$> new)
      ∧ r + sum_list (length ∘ page_ops <$> pages)
        = r' + sum_list (length ∘ page_ops <$> new).
Proof.
  induction pages as [|p pages IH]; intros a r w a' r' out.
  - intros [= <- <- <-]. exists []. rewrite app_nil_r. by repeat split.
  - rewrite main_loop_cons.
    destruct (process_page p) as [[[n m] p']|] eqn:Hp; [|done].
    intros Hloop. simpl in Hloop.
    apply IH in Hloop as (new & -> & Hlen & Ha & Hr).
    destruct (process_page_lengths _ _ _ _ Hp) as [Hn Hm].
    exists (p' :: new). split; [by rewrite <- app_assoc|].
    split; [simpl; by rewrite Hlen|].
    assert (∀ (f : page → nat) q l,
              sum_list (f <$> q :: l) = f q + sum_list (f <$> l)) as Hcons by done.
    rewrite !Hcons.
    assert ((length ∘ page_annots) p = n + (length ∘ page_annots) p') by exact Hn.
    assert ((length ∘ page_ops) p = m + (length ∘ page_ops) p') by exact Hm.
    split; lia.
Qed.

(** X18: when the loop of [main] ends, as many pages were written as were
    read, and the two totals of the summary line are what the document
    lost: the annotations of the pages read are as many as the first total
    and the annotations of the pages written together, and so for the
    operations of the content streams and the second total. *)
Theorem X18_document_totals (pages out : list page) (a r : nat) :
  main_loop pages 0 0 [] = Some (a, r, out) →
  length out = length pages
  ∧ sum_list (length ∘ page_annots <$> pages)
    = a + sum_list (length ∘ page_annots <$> out)
  ∧ sum_list (length ∘ page_ops <$> pages)
    = r + sum_list (length ∘ page_ops <$> out).
Proof.
  intros (new & -> & Hlen & Ha & Hr)%main_loop_totals. simpl in *.
  by repeat split.
Qed.

(** X18 at a document of two pages. *)
Lemma X18_document_totals_witness :
  length sample_document_output = length sample_document
  ∧ sum_list (length ∘ page_annots <$> sample_document)
    = 2 + sum_list (length ∘ page_annots <$> sample_document_output)
  ∧ sum_list (length ∘ page_ops <$> sample_document)
    = 2 + sum_list (length ∘ page_ops <$> sample_document_output).
Proof.
  apply (X18_document_totals sample_document sample_document_output 2 2).
  reflexivity.
Defined.

Lemma unredact_pdf_loop_main pages :
  ∀ a r w, unredact_pdf_loop pages w = (λ x, x.2) <$> main_loop pages a r w.
Proof.
  induction pages as [|p pages IH]; intros a r w; simpl; [done|].
  destruct (_remove_redaction_annots p true) as [n p1]. simpl.
  destruct (_remove_black_rectangles p1 true _ _) as [[m p2]|]; simpl; [|done].
  apply IH.
Qed.

(** X20: the loop of [_unredact_pdf] writes the pages that the loop of
    [main] writes, and raises on the same documents. *)
Theorem X20_web_and_command_line_agree (pages : list page) :
  unredact_pdf_loop pages [] = (λ x, x.2) <$> main_loop pages 0 0 [].
Proof. apply unredact_pdf_loop_main. Qed.

Lemma process_page_None_iff p :
  process_page p = None
  ↔ ∃ ops, contents p = Some ops ∧ Exists bad_color_op ops.
Proof.
  rewrite <- (remove_redaction_annots_keeps_contents p true).
  rewrite <- (remove_black_rectangles_None_iff _ true default_min_width
                default_min_height).
  unfold process_page. destruct (_remove_redaction_annots p true) as [n p1].
  simpl. by destruct (_remove_black_rectangles p1 true _ _) as [[m p2]|].
Qed.

Lemma main_loop_None_iff pages :
  ∀ a r w,
    main_loop pages a r w = None
    ↔ Exists (λ p, ∃ ops, contents p = Some ops ∧ Exists bad_color_op ops) pages.
Proof.
  induction pages as [|p pages IH]; intros a r w.
  - split; [done | by inversion 1].
  - rewrite main_loop_cons, Exists_cons, <- process_page_None_iff.
    destruct (process_page p) as [[[n m] p']|]; simpl.
    + rewrite (IH (a + n) (r + m) (w ++ [p'])).
      split; [by right | by intros [? | ?]].
    + split; [by left | done].
Qed.

(** X21: a page whose content stream has a [g] or an [rg] with operands
    that are missing or do not convert stops the loop of [main], and that
    of [_unredact_pdf]: the loop raises and nothing is written, whatever
    the other pages and the annotations are. *)
Theorem X21_bad_color_operand_stops_loop (pages : list page) :
  Exists (λ p, ∃ ops, contents p = Some ops ∧ Exists bad_color_op ops) pages →
  main_loop pages 0 0 [] = None ∧ unredact_pdf_loop pages [] = None.
Proof.
  intros Hbad%(main_loop_None_iff pages 0 0 []).
  split; [done|]. by rewrite (unredact_pdf_loop_main pages 0 0 []), Hbad.
Qed.

(** X21 at the document of two pages followed by a page whose [g] has a
    name as operand. *)
Lemma X21_bad_color_operand_stops_loop_witness :
  main_loop (sample_document ++ [Page None (Some bad_gray)]) 0 0 [] = None
  ∧ unredact_pdf_loop (sample_document ++ [Page None (Some bad_gray)]) [] = None.
Proof.
  apply (X21_bad_color_operand_stops_loop
           (sample_document ++ [Page None (Some bad_gray)])).
  apply Exists_cons_tl, Exists_cons_tl, Exists_cons_hd.
  exists bad_gray. split; [reflexivity|].
  apply Exists_cons_tl, Exists_cons_hd. left. split; reflexivity.
Defined.

Example sample_document_loop :
  main_loop sample_document 0 0 [] = Some (2, 2, sample_document_output)
  ∧ main_loop (sample_document ++ [Page None (Some bad_gray)]) 0 0 [] = None.
Proof. split; reflexivity. Qed.
